(** * Unique code generator: a shallow embedding of [generate_codes.py]

    The Python class [CodeGenerator] is modelled as a record of its
    attributes; its methods are computations in a small state-and-exception
    monad over a world made of the object, the file system, the random
    source and the progress output.

    - Python [str] values are Rocq strings of 8-bit characters; code points
      above 255 behave like any other non-printable character and are not
      represented.
    - Python [int] values are [Z]; the float that [count / combinations]
      produces is kept exactly, as a mantissa and an exponent, with the
      rounding of IEEE doubles written out.
    - The [set] of codes is a [gset string]; [list(codes_set)] is
      [elements], some order without repetition.
    - [random] is a stream of draws fixed in the world; the sampling loop
      takes a bound on its iterations and reports [Timeout] when the bound
      is reached.
    - A file is the list of rows handed to the CSV writer, a row the list
      of its fields.  Opening a file fails for the paths the world marks
      as locked; [os.makedirs], the encoding lookup and the clock behind
      the progress line are taken not to fail. *)

From Stdlib Require Import ZArith Ascii String List Lia.
From stdpp Require Import base decidable option list gmap sets strings pretty.

Local Open Scope Z_scope.

(** ** Characters and strings *)

Abbreviation chars := list_ascii_of_string.
Abbreviation of_chars := string_of_list_ascii.

(** [c in s] for a one-character string [c]. *)
Definition in_str (c : ascii) (s : string) : bool :=
  bool_decide (c ∈ chars s).

(** ["".join(c for c in s if p c)] *)
Definition str_filter (p : ascii -> bool) (s : string) : string :=
  of_chars (List.filter p (chars s)).

(** [len(s)] *)
Definition len (s : string) : Z := Z.of_nat (String.length s).

(** The constants of Python's [string] module that the program uses. *)
Module PyString.
Definition ascii_lowercase : string := "abcdefghijklmnopqrstuvwxyz".
Definition ascii_uppercase : string := "ABCDEFGHIJKLMNOPQRSTUVWXYZ".
Definition ascii_letters : string := ascii_lowercase +:+ ascii_uppercase.
Definition digits : string := "0123456789".
Definition punctuation : string :=
  "!" +:+ String "034"%char "#$%&'()*+,-./:;<=>?@[\]^_`{|}~".
Definition whitespace : string :=
  String " "%char (String "009"%char (String "010"%char
    (String "013"%char (String "011"%char (String "012"%char ""))))).
Definition printable : string :=
  digits +:+ ascii_letters +:+ punctuation +:+ whitespace.
End PyString.

(** [char in string.printable] *)
Definition is_printable (c : ascii) : bool := in_str c PyString.printable.

(** [[char for char in s if char not in string.printable]] *)
Definition invalid_chars (s : string) : list ascii :=
  List.filter (fun c => negb (is_printable c)) (chars s).

(** ** Exceptions *)

(** The messages of the [ValueError]s the program raises, one constructor
    per [raise] statement, with the values the message interpolates. *)
Inductive message :=
  | InvalidLiteral
  | MustBeIntegers
  | MustBePositive
  | InvalidCase (case : string)
  | InvalidCharset (current : string)
  | CustomDuplicates
  | CustomInvalidChars (bad : list ascii)
  | CustomEmpty
  | OmitInvalidChars (bad : list ascii)
  | AddInvalidChars (bad : list ascii)
  | UsedCharsetEmpty
  | MaxlinesTooSmall
  | CannotGenerate (count length charset_len : Z)
  | CouldNotWrite.

Inductive exn :=
  | ValueError (m : message)
  | TypeError
  | OSError
  | ZeroDivisionError
  | OverflowError
  | IndexError.


Definition is_io_error (e : exn) : bool :=
  match e with ValueError CouldNotWrite => true | _ => false end.

Definition is_configuration_error (e : exn) : bool :=
  match e with
  | ValueError m =>
      match m with
      | CannotGenerate _ _ _ | CouldNotWrite => false
      | _ => true
      end
  | _ => false
  end.

(** ** The object, the file system and the world *)

Record CodeGenerator := mkCodeGenerator {
  codes_count : Z;
  codes_length : Z;
  charset : string;
  codes_set : gset string;
  encoding : string;
  prefix : option string;
  suffix : option string;
  filename_base : string;
  filename_ext : string;
  maxlines : Z;
  save_directory : string
}.

(** A CSV file is kept as the rows handed to [writerow], each a list of
    fields.  The directory tree is the set of directory paths that exist;
    [locked] are the paths that cannot be opened for writing. *)
Record FileSystem := mkFileSystem {
  dirs : gset string;
  files : gmap string (list (list string));
  locked : gset string
}.

Record World := mkWorld {
  self : CodeGenerator;
  fs : FileSystem;
  entropy : nat -> nat;          (* the draws [random] will make, in order *)
  drawn : nat;                   (* how many of them were consumed *)
  progress : list (Z * Z)        (* [(current, total)] of each progress line *)
}.

(** ** The monad: state, exceptions, and running out of fuel *)

Inductive result (A : Type) :=
  | Ok (a : A)
  | Raise (e : exn)
  | Timeout.
Arguments Ok {A} a.
Arguments Raise {A} e.
Arguments Timeout {A}.

Definition M (A : Type) : Type := World -> result A * World.

Global Instance M_ret : MRet M := fun A a w => (Ok a, w).

Global Instance M_bind : MBind M := fun A B k m w =>
  match m w with
  | (Ok a, w') => k a w'
  | (Raise e, w') => (Raise e, w')
  | (Timeout, w') => (Timeout, w')
  end.

Definition raise {A} (e : exn) : M A := fun w => (Raise e, w).

(** The model's bound on loop iterations was reached. *)
Definition out_of_fuel {A} : M A := fun w => (Timeout, w).

(** [try: m except h] for the exceptions [h] selects. *)
Definition try_except {A} (m : M A) (h : exn -> option (M A)) : M A :=
  fun w => match m w with
           | (Raise e, w') =>
               match h e with Some k => k w' | None => (Raise e, w') end
           | r => r
           end.

Definition get_self : M CodeGenerator := fun w => (Ok (self w), w).

Definition set_self (f : CodeGenerator -> CodeGenerator) : M unit :=
  fun w => (Ok tt, mkWorld (f (self w)) (fs w) (entropy w) (drawn w) (progress w)).

Definition get_fs : M FileSystem := fun w => (Ok (fs w), w).

Definition set_fs (f : FileSystem -> FileSystem) : M unit :=
  fun w => (Ok tt, mkWorld (self w) (f (fs w)) (entropy w) (drawn w) (progress w)).

(** Attribute assignments. *)
Definition with_charset (s : string) (g : CodeGenerator) : CodeGenerator :=
  mkCodeGenerator (codes_count g) (codes_length g) s (codes_set g) (encoding g)
    (prefix g) (suffix g) (filename_base g) (filename_ext g) (maxlines g)
    (save_directory g).

Definition with_codes_set (x : gset string) (g : CodeGenerator) : CodeGenerator :=
  mkCodeGenerator (codes_count g) (codes_length g) (charset g) x (encoding g)
    (prefix g) (suffix g) (filename_base g) (filename_ext g) (maxlines g)
    (save_directory g).

(** ** [CodeGenerator.build_character_set] *)

Definition RECOMMENDED_CHARS : string := "2345679ACDEFGHJKLMNPRSTUVXYZ".

(** [len(custom_chars) != len(set(custom_chars))] *)
Definition has_duplicates (s : string) : bool :=
  negb (Nat.eqb (String.length s)
                (size (list_to_set (chars s) : gset ascii))).

(** Lines 49-56: the letters selected by [case]. *)
Definition select_alpha (case : string) : M string :=
  if String.eqb case "lower" then mret PyString.ascii_lowercase
  else if String.eqb case "mixed" then mret PyString.ascii_letters
  else if String.eqb case "upper" then mret PyString.ascii_uppercase
  else raise (ValueError (InvalidCase case)).

(** Lines 58-85: the base set selected by [charset]. *)
Definition select_base (charset_name : string) (alphaSet : string)
    (custom_chars : option string) : M unit :=
  if String.eqb charset_name "recommended" then
    set_self (with_charset RECOMMENDED_CHARS)
  else if String.eqb charset_name "numeric" then
    set_self (with_charset PyString.digits)
  else if String.eqb charset_name "alpha" then
    set_self (with_charset alphaSet)
  else if String.eqb charset_name "alphanumeric" then
    set_self (with_charset (PyString.digits +:+ alphaSet))
  else if String.eqb charset_name "custom" then
    match custom_chars with
    | Some ((String c cs) as custom) =>
        if has_duplicates custom then raise (ValueError CustomDuplicates)
        else
          match invalid_chars custom with
          | [] => set_self (with_charset custom)
          | bad => raise (ValueError (CustomInvalidChars bad))
          end
    | _ => raise (ValueError CustomEmpty)
    end
  else
    g ← get_self; raise (ValueError (InvalidCharset (charset g))).

(** Lines 87-96. *)
Definition apply_omit (omit : option string) : M unit :=
  match omit with
  | None => mret tt
  | Some o =>
      match invalid_chars o with
      | [] =>
          set_self (fun g =>
            with_charset (str_filter (fun c => negb (in_str c o)) (charset g)) g)
      | bad => raise (ValueError (OmitInvalidChars bad))
      end
  end.

(** Lines 98-105. *)
Definition apply_add (add : option string) : M unit :=
  match add with
  | None => mret tt
  | Some a =>
      match invalid_chars a with
      | [] => set_self (fun g => with_charset (charset g +:+ a) g)
      | bad => raise (ValueError (AddInvalidChars bad))
      end
  end.

Definition build_character_set (charset_name case : string)
    (omit add custom_chars : option string) : M unit :=
  alphaSet ← select_alpha case;
  select_base charset_name alphaSet custom_chars;;
  apply_omit omit;;
  apply_add add;;
  g ← get_self;
  match charset g with
  | EmptyString => raise (ValueError UsedCharsetEmpty)
  | _ => mret tt
  end.

(** ** Python values and [int()] *)

(** A float is kept exactly: [Float m e] is the number [m * 2^e]. *)
Inductive pyfloat :=
  | Float (m e : Z)
  | Infinity (negative : bool)
  | NaN.

(** The values a caller can pass for [codes_count], [codes_length] and
    [maxlines]. *)
Inductive pyval :=
  | PyInt (z : Z)
  | PyFloat (f : pyfloat)
  | PyStr (s : string)
  | PyNone.

Definition code_of (c : ascii) : Z := Z.of_N (N_of_ascii c).

(** The characters [int()] skips at both ends of a string. *)
Definition int_space (c : ascii) : bool :=
  let n := code_of c in
  ((9 <=? n) && (n <=? 13)) || (n =? 32) || (n =? 133) || (n =? 160).

Definition digit_of (c : ascii) : option Z :=
  let n := code_of c in
  if (48 <=? n) && (n <=? 57) then Some (n - 48) else None.

Fixpoint lstrip (sp : ascii -> bool) (l : list ascii) : list ascii :=
  match l with
  | c :: l' => if sp c then lstrip sp l' else l
  | [] => []
  end.

Definition strip (sp : ascii -> bool) (l : list ascii) : list ascii :=
  rev (lstrip sp (rev (lstrip sp l))).

(** Decimal digits with single underscores between them. *)
Fixpoint digits_value (acc : Z) (after_digit : bool) (l : list ascii) : option Z :=
  match l with
  | [] => if after_digit then Some acc else None
  | c :: l' =>
      match digit_of c with
      | Some d => digits_value (10 * acc + d) true l'
      | None =>
          if Ascii.eqb c "_" && after_digit then digits_value acc false l'
          else None
      end
  end.

(** [int(s)] for a string, base 10. *)
Definition parse_int (s : string) : option Z :=
  match strip int_space (chars s) with
  | c :: l =>
      if Ascii.eqb c "-" then Z.opp <$> digits_value 0 false l
      else if Ascii.eqb c "+" then digits_value 0 false l
      else digits_value 0 false (c :: l)
  | [] => None
  end.

(** [int(f)] for a float: truncation towards zero. *)
Definition trunc_float (m e : Z) : Z :=
  if 0 <=? e then m * 2 ^ e else Z.quot m (2 ^ (- e)).

(** [int(v)] *)
Definition py_int (v : pyval) : M Z :=
  match v with
  | PyInt z => mret z
  | PyFloat (Float m e) => mret (trunc_float m e)
  | PyFloat (Infinity _) => raise OverflowError
  | PyFloat NaN => raise (ValueError InvalidLiteral)
  | PyStr s =>
      match parse_int s with
      | Some z => mret z
      | None => raise (ValueError InvalidLiteral)
      end
  | PyNone => raise TypeError
  end.

(** ** [CodeGenerator.__init__] *)

(** The [except ValueError] and [except TypeError] clauses of lines 30-33. *)
Definition init_handler : exn -> option (M (Z * Z)) := fun e =>
  match e with
  | ValueError _ | TypeError => Some (raise (ValueError MustBeIntegers))
  | _ => None
  end.

(** On success the world's object is the freshly initialised one; when the
    constructor raises, no object is bound and the world is unchanged. *)
Definition init (count length : pyval) (prefix suffix : option string) : M unit :=
  cl ← try_except
         (c ← py_int count; l ← py_int length; mret (c, l))
         init_handler;
  if cl.1 <? 1 then raise (ValueError MustBePositive)
  else if cl.2 <? 1 then raise (ValueError MustBePositive)
  else set_self (fun _ =>
         mkCodeGenerator cl.1 cl.2 "" ∅ "" prefix suffix "" "" 0 "").

(** ** [CodeGenerator.build_file] *)

(** [s.rfind(c)]: the last index of [c], or -1. *)
Fixpoint rfind_from (c : ascii) (l : list ascii) (i last : Z) : Z :=
  match l with
  | [] => last
  | x :: l' => rfind_from c l' (i + 1) (if Ascii.eqb x c then i else last)
  end.

Definition rfind (c : ascii) (l : list ascii) : Z := rfind_from c l 0 (-1).

(** [l[start:stop]] with Python's treatment of negative and overlong
    indices. *)
Definition clamp_index (n i : Z) : Z :=
  if i <? 0 then Z.max 0 (n + i) else Z.min i n.

Definition slice {A} (l : list A) (start stop : Z) : list A :=
  let n := Z.of_nat (length l) in
  let a := clamp_index n start in
  let b := clamp_index n stop in
  take (Z.to_nat (b - a)) (drop (Z.to_nat a) l).

(** [os.path.splitext] (POSIX): split at the last dot of the last path
    component, unless that component has only leading dots before it. *)
Definition splitext (p : string) : string * string :=
  let l := chars p in
  let sepIndex := rfind "/" l in
  let dotIndex := rfind "." l in
  if (sepIndex <? dotIndex)
     && existsb (fun x => negb (Ascii.eqb x "."))
                (slice l (sepIndex + 1) dotIndex)
  then (of_chars (slice l 0 dotIndex),
        of_chars (slice l dotIndex (Z.of_nat (length l))))
  else (p, "").

Definition with_file (base ext : string) (g : CodeGenerator) : CodeGenerator :=
  mkCodeGenerator (codes_count g) (codes_length g) (charset g) (codes_set g)
    (encoding g) (prefix g) (suffix g) base ext (maxlines g) (save_directory g).

Definition with_maxlines (m : Z) (g : CodeGenerator) : CodeGenerator :=
  mkCodeGenerator (codes_count g) (codes_length g) (charset g) (codes_set g)
    (encoding g) (prefix g) (suffix g) (filename_base g) (filename_ext g) m
    (save_directory g).

Definition with_encoding (enc : string) (g : CodeGenerator) : CodeGenerator :=
  mkCodeGenerator (codes_count g) (codes_length g) (charset g) (codes_set g)
    enc (prefix g) (suffix g) (filename_base g) (filename_ext g) (maxlines g)
    (save_directory g).

Definition with_save_directory (d : string) (g : CodeGenerator) : CodeGenerator :=
  mkCodeGenerator (codes_count g) (codes_length g) (charset g) (codes_set g)
    (encoding g) (prefix g) (suffix g) (filename_base g) (filename_ext g)
    (maxlines g) d.

Definition build_file (filename : string) (maxlines_arg : option pyval)
    (encoding_arg save_directory_arg : string) : M unit :=
  let '(base, ext) := splitext filename in
  let ext := if String.eqb ext "" then ".csv" else ext in
  set_self (with_file base ext);;
  match maxlines_arg with
  | None => set_self (fun g => with_maxlines (codes_count g) g)
  | Some v => m ← py_int v; set_self (with_maxlines m)
  end;;
  g ← get_self;
  if maxlines g <? 1 then raise (ValueError MaxlinesTooSmall)
  else
    set_self (with_encoding encoding_arg);;
    set_self (with_save_directory save_directory_arg).

(** ** True division of integers *)

(** Python's [a / b] on integers is the float nearest to the exact
    quotient, ties going to the even mantissa; it raises when [b] is zero
    and when the quotient is beyond the largest float. *)

(** Nearest integer to [n / d] for [0 <= n] and [0 < d], ties to even. *)
Definition round_half_even (n d : Z) : Z :=
  let q := n / d in
  let r := n mod d in
  if 2 * r <? d then q
  else if d <? 2 * r then q + 1
  else if Z.even q then q else q + 1.

(** [2^k <= a / b], for positive [a] and [b]. *)
Definition ratio_ge_pow2 (a b k : Z) : bool :=
  if 0 <=? k then b * 2 ^ k <=? a else b <=? a * 2 ^ (- k).

(** The mantissa of [a / b] at exponent [e]: the rounding of
    [a / (b * 2^e)]. *)
Definition mantissa_at (a b e : Z) : Z :=
  if 0 <=? e then round_half_even a (b * 2 ^ e)
  else round_half_even (a * 2 ^ (- e)) b.

(** Doubles: 53 bits of mantissa, least exponent -1074, values below
    [2^1024]. *)
Definition float_div_pos (a b : Z) : result pyfloat :=
  let d := Z.log2 a - Z.log2 b in
  let top := if ratio_ge_pow2 a b d then d else d - 1 in
  let e := Z.max (top - 52) (-1074) in
  let m := mantissa_at a b e in
  if (0 <=? e) && (2 ^ 1024 <=? m * 2 ^ e) then Raise OverflowError
  else Ok (Float m e).

Definition float_neg (f : pyfloat) : pyfloat :=
  match f with
  | Float m e => Float (- m) e
  | Infinity s => Infinity (negb s)
  | NaN => NaN
  end.

Definition true_divide (a b : Z) : M pyfloat := fun w =>
  if b =? 0 then (Raise ZeroDivisionError, w)
  else if a =? 0 then (Ok (Float 0 0), w)
  else
    match float_div_pos (Z.abs a) (Z.abs b) with
    | Ok f => (Ok (if Z.sgn a =? Z.sgn b then f else float_neg f), w)
    | Raise e => (Raise e, w)
    | Timeout => (Timeout, w)
    end.

(** [f > 1] for a float [f]. *)
Definition float_gt_one (f : pyfloat) : bool :=
  match f with
  | Float m e => if 0 <=? e then 1 <? m * 2 ^ e else 2 ^ (- e) <? m
  | Infinity negative => negb negative
  | NaN => false
  end.

(** ** [CodeGenerator.__check_probability] *)

(** [chars_number ** codes_length].  The constructor makes
    [codes_length] at least 1; for a negative exponent Python leaves the
    integers, which this integer power does not follow. *)
Definition int_pow (n l : Z) : Z := n ^ l.

Definition check_probability : M pyfloat :=
  g ← get_self;
  let chars_number := len (charset g) in
  let combinations := int_pow chars_number (codes_length g) in
  true_divide (codes_count g) combinations.

(** ** [CodeGenerator.__update_progress] *)

(** The progress line is recorded by its two counters; the bar and the
    remaining time are functions of those and of the clock, which is not
    modelled. *)
Definition update_progress (current total : Z) : M unit := fun w =>
  (Ok tt, mkWorld (self w) (fs w) (entropy w) (drawn w)
            (progress w ++ [(current, total)])).

(** ** [CodeGenerator.__generate_codes] *)

(** [random.choice(s)]: the next draw selects an index of [s]. *)
Definition random_choice (s : string) : M ascii := fun w =>
  match chars s with
  | [] => (Raise IndexError, w)
  | (c :: _) as l =>
      (Ok (nth (entropy w (drawn w) mod length l)%nat l c),
       mkWorld (self w) (fs w) (entropy w) (S (drawn w)) (progress w))
  end.

(** [random.choice(s) for _ in range(n)] *)
Fixpoint random_chars (n : nat) (s : string) : M (list ascii) :=
  match n with
  | O => mret []
  | S n' => c ← random_choice s; cs ← random_chars n' s; mret (c :: cs)
  end.

(** Lines 148-151. *)
Definition decorate (prefix suffix : option string) (code : string) : string :=
  let code := match prefix with Some p => p +:+ code | None => code end in
  match suffix with Some s => code +:+ s | None => code end.

(** The [while] loop of lines 144-158; [fuel] bounds its iterations. *)
Fixpoint generate_loop (fuel : nat) (codes_generated : Z) : M unit :=
  g ← get_self;
  if codes_generated <? codes_count g then
    match fuel with
    | O => out_of_fuel
    | S fuel' =>
        core ← random_chars (Z.to_nat (codes_length g)) (charset g);
        let code := decorate (prefix g) (suffix g) (of_chars core) in
        if bool_decide (code ∈ codes_set g) then
          generate_loop fuel' codes_generated
        else
          set_self (with_codes_set ({[code]} ∪ codes_set g));;
          update_progress (codes_generated + 1) (codes_count g);;
          generate_loop fuel' (codes_generated + 1)
    end
  else mret tt.

Definition generate_codes (fuel : nat) : M unit :=
  probability ← check_probability;
  if float_gt_one probability then
    g ← get_self;
    raise (ValueError (CannotGenerate (codes_count g) (codes_length g)
                         (len (charset g))))
  else generate_loop fuel 0.

(** ** [CodeGenerator.__save_codes] *)

(** The characters [str.split()] splits at. *)
Definition py_isspace (c : ascii) : bool :=
  let n := code_of c in
  ((9 <=? n) && (n <=? 13)) || ((28 <=? n) && (n <=? 32))
  || (n =? 133) || (n =? 160).

Definition flush_word (cur : list ascii) : list string :=
  match cur with
  | [] => []
  | _ => [of_chars (rev cur)]
  end.

(** [s.split()]: the maximal runs of non-space characters; [cur] is the
    run being read, reversed. *)
Fixpoint split_from (cur : list ascii) (l : list ascii) : list string :=
  match l with
  | [] => flush_word cur
  | c :: l' =>
      if py_isspace c then flush_word cur ++ split_from [] l'
      else split_from (c :: cur) l'
  end.

Definition split (s : string) : list string := split_from [] (chars s).

(** [os.path.exists] *)
Definition path_exists (p : string) (f : FileSystem) : bool :=
  bool_decide (p ∈ dirs f) || bool_decide (p ∈ dom (files f)).

(** [os.makedirs]: the path is a directory afterwards. *)
Definition makedirs (p : string) : M unit :=
  set_fs (fun f => mkFileSystem ({[p]} ∪ dirs f) (files f) (locked f)).

(** [os.path.join(a, b)] (POSIX) *)
Definition starts_with_sep (s : string) : bool :=
  match s with
  | String c _ => Ascii.eqb c "/"
  | EmptyString => false
  end.

Definition ends_with_sep (s : string) : bool :=
  match rev (chars s) with
  | c :: _ => Ascii.eqb c "/"
  | [] => false
  end.

Definition path_join (a b : string) : string :=
  if starts_with_sep b then b
  else if String.eqb a "" || ends_with_sep a then a +:+ b
  else a +:+ "/" +:+ b.

(** [open(path, "w")]: the file is created or emptied. *)
Definition open_w (path : string) : M unit := fun w =>
  if bool_decide (path ∈ locked (fs w)) then (Raise OSError, w)
  else set_fs (fun f => mkFileSystem (dirs f) (<[path := []]> (files f))
                          (locked f)) w.

(** [csv_writer.writerow(fields)] on the file opened at [path]. *)
Definition writerow (path : string) (fields : list string) : M unit :=
  set_fs (fun f =>
    mkFileSystem (dirs f)
      (<[path := default [] (files f !! path) ++ [fields]]> (files f))
      (locked f)).

(** [for x in l: body x] *)
Fixpoint for_each {A} (l : list A) (body : A -> M unit) : M unit :=
  match l with
  | [] => mret tt
  | x :: l' => body x;; for_each l' body
  end.

(** [a // b] *)
Definition floor_div (a b : Z) : M Z :=
  if b =? 0 then raise ZeroDivisionError else mret (a / b).

(** Lines 201-206. *)
Definition output_file_name (g : CodeGenerator) (num_files file_index : Z)
    : string :=
  if 1 <? num_files then
    filename_base g +:+ "_" +:+ pretty (file_index + 1) +:+ filename_ext g
  else filename_base g +:+ filename_ext g.

(** The [except IOError] clause of lines 220-221. *)
Definition io_handler : exn -> option (M unit) := fun e =>
  match e with
  | OSError => Some (raise (ValueError CouldNotWrite))
  | _ => None
  end.

(** Lines 198-199 and 218: the codes of the file [file_index]. *)
Definition file_codes (g : CodeGenerator) (codes_list : list string)
    (file_index : Z) : list string :=
  let start_index := file_index * maxlines g in
  let end_index := (file_index + 1) * maxlines g in
  slice codes_list start_index end_index.

(** Line 208. *)
Definition file_path (g : CodeGenerator) (num_files file_index : Z) : string :=
  path_join (save_directory g) (output_file_name g num_files file_index).

(** The body of the [for file_index] loop, lines 198-221. *)
Definition save_file (g : CodeGenerator) (codes_list : list string)
    (num_files file_index : Z) : M unit :=
  try_except
    (open_w (file_path g num_files file_index);;
     for_each (file_codes g codes_list file_index)
       (fun code => writerow (file_path g num_files file_index) (split code)))
    io_handler.

Definition save_codes : M unit :=
  g ← get_self;
  f ← get_fs;
  (if path_exists (save_directory g) f then mret tt
   else makedirs (save_directory g));;
  let codes_list := elements (codes_set g) in
  q ← floor_div (Z.of_nat (length codes_list) - 1) (maxlines g);
  let num_files := q + 1 in
  for_each (seqZ 0 num_files) (save_file g codes_list num_files).

(** ** [CodeGenerator.run] and [main] *)

Definition run (fuel : nat) : M unit :=
  generate_codes fuel;;
  save_codes.

(** The command line after [argparse]: both positional arguments are
    strings, [maxlines] was converted by [type=int]. *)
Record Args := mkArgs {
  arg_count : string;
  arg_length : string;
  arg_charset : string;
  arg_omit : option string;
  arg_add : option string;
  arg_prefix : option string;
  arg_suffix : option string;
  arg_case : string;
  arg_filename : option string;
  arg_encoding : string;
  arg_maxlines : option Z
}.

(** [s.lower()] on the letters A-Z. *)
Definition lower_char (c : ascii) : ascii :=
  let n := code_of c in
  if (65 <=? n) && (n <=? 90) then ascii_of_N (Z.to_N (n + 32)) else c.

Definition lower (s : string) : string := of_chars (map lower_char (chars s)).

(** The [try] block of lines 279-288. *)
Definition main_try (a : Args) (custom_charset : option string)
    (filename : string) (fuel : nat) : M unit :=
  init (PyStr (arg_count a)) (PyStr (arg_length a)) (arg_prefix a)
    (arg_suffix a);;
  build_character_set (arg_charset a) (arg_case a) (arg_omit a) (arg_add a)
    custom_charset;;
  build_file filename (PyInt <$> arg_maxlines a) (arg_encoding a) "codes";;
  run fuel.

(** What [main] tells the user. *)
Inductive report :=
  | CodesSaved
  | ErrorPrinted (m : message)
  | CustomCannotBeEmpty.

Definition main_handler : exn -> option (M report) := fun e =>
  match e with
  | ValueError m => Some (mret (ErrorPrinted m))
  | _ => None
  end.

(** [typed] is the answer to the prompt for a custom set, [now] the
    timestamp [strftime] returns. *)
Definition main (a : Args) (typed now : string) (fuel : nat) : M report :=
  let custom := String.eqb (lower (arg_charset a)) "custom" in
  if custom && String.eqb typed "" then mret CustomCannotBeEmpty
  else
    let custom_charset := if custom then Some typed else None in
    let filename :=
      match arg_filename a with
      | Some f => f
      | None => "codes_" +:+ now +:+ ".csv"
      end in
    try_except
      (main_try a custom_charset filename fuel;; mret CodesSaved)
      main_handler.

(** ** Worlds used in the examples *)

Definition new_object : CodeGenerator :=
  mkCodeGenerator 0 0 "" ∅ "" None None "" "" 0 "".

Definition empty_fs : FileSystem := mkFileSystem ∅ ∅ ∅.

(** A world with nothing on disk whose random source makes the given
    draws. *)
Definition world_of (draws : nat -> nat) : World :=
  mkWorld new_object empty_fs draws 0 [].

Definition world_with_charset (s : string) (w : World) : World :=
  mkWorld (with_charset s (self w)) (fs w) (entropy w) (drawn w) (progress w).

(** Every character of [s] is in [string.printable]. *)
Definition printable_str (s : string) : Prop :=
  Forall (fun c => is_printable c = true) (chars s).

(** The base set is one of the fixed sets, or the custom string when that
    is non-empty, duplicate-free and printable. *)
Inductive base_set (charset_name alphaSet : string) (custom : option string)
    : string -> Prop :=
  | base_recommended :
      charset_name = "recommended" ->
      base_set charset_name alphaSet custom RECOMMENDED_CHARS
  | base_numeric :
      charset_name = "numeric" ->
      base_set charset_name alphaSet custom PyString.digits
  | base_alpha :
      charset_name = "alpha" -> base_set charset_name alphaSet custom alphaSet
  | base_alphanumeric :
      charset_name = "alphanumeric" ->
      base_set charset_name alphaSet custom (PyString.digits +:+ alphaSet)
  | base_custom s :
      charset_name = "custom" -> custom = Some s -> s ≠ "" ->
      NoDup (chars s) -> printable_str s ->
      base_set charset_name alphaSet custom s.

(** A code of the object [g]: a core of [codes_length] characters of the
    charset, between the prefix and the suffix. *)
Definition code_of_object (g : CodeGenerator) (code : string) : Prop :=
  exists core : list ascii,
    code = default "" (prefix g) +:+ of_chars core +:+ default "" (suffix g)
    /\ Z.of_nat (length core) = codes_length g
    /\ Forall (fun c => c ∈ chars (charset g)) core.

(** The object after the constructor and the builder were given
    10000000000000001 codes of 16 digits. *)
Definition crowded_object : CodeGenerator :=
  mkCodeGenerator (10 ^ 16 + 1) 16 "0123456789" ∅ "" None None "" "" 0 "".

(** An object set up for three codes of two digits after "X-", in a world
    whose draws are 0, 7, 14, ..., and the world after generation. *)
Definition three_codes_object : CodeGenerator :=
  mkCodeGenerator 3 2 "0123456789" ∅ "" (Some "X-") None "out" ".csv" 2 "codes".

Definition three_codes_start : World :=
  mkWorld three_codes_object empty_fs (fun n => n * 7)%nat 0 [].

Definition three_codes_end : World :=
  mkWorld (with_codes_set {["X-07"; "X-41"; "X-85"]} three_codes_object)
    empty_fs (fun n => n * 7)%nat 6 [(1, 3); (2, 3); (3, 3)].

Definition world_with_fs (f : FileSystem) (w : World) : World :=
  mkWorld (self w) f (entropy w) (drawn w) (progress w).

(** The file system after [rows] were written to a new or emptied file. *)
Definition write_file (path : string) (rows : list (list string))
    (f : FileSystem) : FileSystem :=
  mkFileSystem (dirs f) (<[path := rows]> (files f)) (locked f).

(** A computation that leaves the file system as it found it, however it
    ends. *)
Definition keeps_fs {A} (m : M A) : Prop :=
  forall w r w', m w = (r, w') -> fs w' = fs w.

(** The command line of the spec's example: 100000 codes of one digit. *)
Definition too_many_args : Args :=
  mkArgs "100000" "1" "numeric" None None None None "upper" (Some "codes.csv")
    "utf-8" None.

(** One code of one digit after the prefix "A B". *)
Definition spaced_prefix_args : Args :=
  mkArgs "1" "1" "numeric" None None (Some "A B") None "upper"
    (Some "out.csv") "utf-8" None.

(** The characters [random_chars n s] picks from [l = chars s] once [d]
    draws were consumed. *)
Definition drawn_chars (draws : nat -> nat) (d n : nat) (l : list ascii)
    : list ascii :=
  (fun t => nth (draws (d + t) mod length l)%nat l (hd "000"%char l))
    <$> seq 0 n.


(** Draws that, from draw number [d0] on, spell 0, 1, 2, ... in base [b]
    with [n] digits each, lowest digit first. *)
Definition counting_draws (b n d0 : nat) : nat -> nat := fun i =>
  ((((i - d0) / n) / b ^ ((i - d0) mod n)) mod b)%nat.

(** The command line of the spec's end-to-end example: ten codes of four
    digits, five per file. *)
Definition ten_codes_args : Args :=
  mkArgs "10" "4" "numeric" None None None None "upper" (Some "codes.csv")
    "utf-8" (Some 5).

(** The codes of tab, line feed, vertical tab, form feed, carriage return
    and of the characters from the space to the tilde. *)
Definition printable_code (c : ascii) : Prop :=
  9 <= code_of c <= 13 \/ 32 <= code_of c <= 126.

Global Instance printable_code_dec (c : ascii) : Decision (printable_code c).
Proof. unfold printable_code. apply _. Defined.

(** The three values of the case option. *)
Definition valid_case (case : string) : Prop :=
  case = "lower" \/ case = "mixed" \/ case = "upper".

Definition world_with_self (g : CodeGenerator) (w : World) : World :=
  mkWorld g (fs w) (entropy w) (drawn w) (progress w).

(** The object that holds the three codes, before a second generation
    with the draws 0, 3, 6, ... *)
Definition three_codes_again : World :=
  mkWorld (self three_codes_end) empty_fs (fun n => n * 3)%nat 0 [].


(** A code without white space. *)
Definition solid (code : string) : Prop :=
  code ≠ "" /\ Forall (fun c => py_isspace c = false) (chars code).

(** The command line that asks for [10^400] codes of one digit. *)
Definition huge_count_args : Args :=
  mkArgs (pretty (10 ^ 400)) "1" "numeric" None None None None "upper"
    (Some "codes.csv") "utf-8" None.

(** The file name [main] passes to [build_file]. *)
Definition main_filename (a : Args) (now : string) : string :=
  match arg_filename a with
  | Some f => f
  | None => "codes_" +:+ now +:+ ".csv"
  end.

(** One numeric code of one character, with no file name given. *)
Definition default_name_args : Args :=
  mkArgs "1" "1" "numeric" None None None None "upper" None "utf-8" None.

(** * Properties *)

(** ** Strings as lists of characters *)

Lemma chars_app (s t : string) : chars (s +:+ t) = chars s ++ chars t.
Proof. induction s as [|c s IH]; simpl; [done | by rewrite IH]. Qed.

Lemma chars_of_chars (l : list ascii) : chars (of_chars l) = l.
Proof. apply list_ascii_of_string_of_list_ascii. Qed.

Lemma of_chars_chars (s : string) : of_chars (chars s) = s.
Proof. apply string_of_list_ascii_of_string. Qed.

Lemma length_chars (s : string) : length (chars s) = String.length s.
Proof. induction s; simpl; congruence. Qed.

Lemma chars_nil (s : string) : chars s = [] -> s = "".
Proof. by destruct s. Qed.

Lemma chars_inj (s t : string) : chars s = chars t -> s = t.
Proof. intros H. by rewrite <- (of_chars_chars s), H, of_chars_chars. Qed.

Lemma in_str_true (c : ascii) (s : string) : in_str c s = true <-> c ∈ chars s.
Proof. unfold in_str. by rewrite bool_decide_eq_true. Qed.

(** The boolean filter of the code is the filter on a decidable
    predicate. *)
Lemma filter_bool_prop {A} (f : A -> bool) (P : A -> Prop)
    `{!forall x, Decision (P x)} (l : list A) :
  (forall x, f x = true <-> P x) -> List.filter f l = filter P l.
Proof.
  intros Hf. induction l as [|x l IH]; [done|].
  simpl. rewrite filter_cons. destruct (decide (P x)) as [HP|HP].
  - apply Hf in HP. rewrite HP. by f_equal.
  - destruct (f x) eqn:E; [by apply Hf in E | done].
Qed.

Lemma chars_str_filter_omit (o s : string) :
  chars (str_filter (fun c => negb (in_str c o)) s)
  = filter (fun c => c ∉ chars o) (chars s).
Proof.
  unfold str_filter. rewrite chars_of_chars. apply filter_bool_prop.
  intros c. rewrite negb_true_iff, <- not_true_iff_false, in_str_true. done.
Qed.

Lemma invalid_chars_nil (s : string) :
  invalid_chars s = [] <-> Forall (fun c => is_printable c = true) (chars s).
Proof.
  unfold invalid_chars. induction (chars s) as [|c l IH]; simpl.
  - split; [constructor | done].
  - destruct (is_printable c) eqn:E; simpl.
    + rewrite IH. split; [by constructor | by inversion 1].
    + split; [done | inversion 1; congruence].
Qed.

(** ** Running the monad *)

Lemma run_bind {A B} (m : M A) (k : A -> M B) (w : World) :
  (m ≫= k) w = match m w with
                | (Ok a, w') => k a w'
                | (Raise e, w') => (Raise e, w')
                | (Timeout, w') => (Timeout, w')
                end.
Proof. reflexivity. Qed.

Lemma run_set_charset (s : string) (w : World) :
  set_self (with_charset s) w = (Ok tt, world_with_charset s w).
Proof. reflexivity. Qed.

(** ** The charset builder *)

Section Builder.
Variables (charset_name case : string) (omit add custom : option string).

(** Neither selecting the letters nor anything else in the builder reads
    or writes outside the [charset] attribute. *)
Lemma select_alpha_pure (w w' : World) (r : result string) :
  select_alpha case w = (r, w') -> w' = w.
Proof.
  unfold select_alpha. repeat case_match; inversion 1; done.
Qed.

Lemma select_alpha_invalid (w : World) :
  case ≠ "lower" -> case ≠ "mixed" -> case ≠ "upper" ->
  select_alpha case w = (Raise (ValueError (InvalidCase case)), w).
Proof.
  intros H1 H2 H3. unfold select_alpha.
  apply String.eqb_neq in H1, H2, H3. by rewrite H1, H2, H3.
Qed.

(** C10: the case option is checked first: any case other than "lower",
    "mixed" and "upper" makes [build_character_set] raise, whatever the
    charset name, the omit, add and custom strings are, and the object
    is left as it was. *)
Theorem build_character_set_invalid_case (w : World) :
  case ≠ "lower" -> case ≠ "mixed" -> case ≠ "upper" ->
  build_character_set charset_name case omit add custom w
  = (Raise (ValueError (InvalidCase case)), w).
Proof.
  intros H1 H2 H3. unfold build_character_set.
  rewrite run_bind, select_alpha_invalid by done. done.
Qed.
End Builder.

(** At a case that is not one of the three, with a charset that does not
    use the letters. *)
Lemma build_character_set_invalid_case_witness :
  build_character_set "numeric" "title" None None None (world_of (fun _ => O))
  = (Raise (ValueError (InvalidCase "title")), world_of (fun _ => O)).
Proof.
  apply (build_character_set_invalid_case "numeric" "title" None None None);
    discriminate.
Defined.

(** ** The alphabet the builder produces *)

Lemma printable_invalid_chars (s : string) :
  printable_str s -> invalid_chars s = [].
Proof. apply invalid_chars_nil. Qed.

Lemma run_apply_omit (omit : option string) (B : string) (w : World) :
  printable_str (default "" omit) ->
  apply_omit omit (world_with_charset B w)
  = (Ok tt, world_with_charset
              (of_chars (filter (fun c => c ∉ chars (default "" omit)) (chars B)))
              w).
Proof.
  intros Hp. destruct omit as [o|]; simpl in *.
  - unfold apply_omit. rewrite printable_invalid_chars by done.
    unfold set_self, world_with_charset, with_charset; simpl. do 3 f_equal.
    by rewrite <- chars_str_filter_omit, of_chars_chars.
  - unfold mret, M_ret, world_with_charset, with_charset. do 3 f_equal.
    rewrite <- (of_chars_chars B) at 1. f_equal.
    induction (chars B) as [|c l IH]; [done|].
    rewrite filter_cons_True by apply not_elem_of_nil. by f_equal.
Qed.

Lemma run_apply_add (add : option string) (B : string) (w : World) :
  printable_str (default "" add) ->
  apply_add add (world_with_charset B w)
  = (Ok tt, world_with_charset (of_chars (chars B ++ chars (default "" add))) w).
Proof.
  intros Hp. destruct add as [a|]; simpl in *.
  - unfold apply_add. rewrite printable_invalid_chars by done.
    unfold set_self, world_with_charset, with_charset; simpl. do 3 f_equal.
    by rewrite <- chars_app, of_chars_chars.
  - unfold mret, M_ret, world_with_charset, with_charset. do 3 f_equal.
    by rewrite app_nil_r, of_chars_chars.
Qed.

(** C3: when the name, case and custom string select the base set [B]
    and the omit and add strings are printable, the builder leaves in
    [charset] the characters of [B] that are not in the omit string, in
    their order, followed by the add string as given; it raises exactly
    when that alphabet is empty. *)
Theorem build_character_set_alphabet
    (charset_name case : string) (omit add custom : option string)
    (alphaSet B : string) (w : World) :
  select_alpha case w = (Ok alphaSet, w) ->
  select_base charset_name alphaSet custom w = (Ok tt, world_with_charset B w) ->
  printable_str (default "" omit) ->
  printable_str (default "" add) ->
  let A := filter (fun c => c ∉ chars (default "" omit)) (chars B)
           ++ chars (default "" add) in
  build_character_set charset_name case omit add custom w
  = (if decide (A = []) then Raise (ValueError UsedCharsetEmpty) else Ok tt,
     world_with_charset (of_chars A) w).
Proof.
  intros Halpha Hbase Ho Ha A. unfold build_character_set.
  rewrite run_bind, Halpha, run_bind, Hbase, run_bind, run_apply_omit by done.
  rewrite run_bind, run_apply_add by done. rewrite chars_of_chars. fold A.
  rewrite run_bind. simpl. destruct A as [|c A']; done.
Qed.

(** The digits without 0 and 1, followed by "xx1": the added characters
    are kept with their repetitions, and "1" comes back. *)
Lemma build_character_set_alphabet_witness :
  build_character_set "numeric" "upper" (Some "01") (Some "xx1") None
    (world_of (fun _ => O))
  = (Ok tt, world_with_charset "23456789xx1" (world_of (fun _ => O))).
Proof.
  apply (build_character_set_alphabet "numeric" "upper" (Some "01")
           (Some "xx1") None PyString.ascii_uppercase PyString.digits).
  - reflexivity.
  - reflexivity.
  - apply invalid_chars_nil. reflexivity.
  - apply invalid_chars_nil. reflexivity.
Defined.

(** ** What the builder can return *)

Lemma NoDup_of_size (l : list ascii) :
  size (list_to_set l : gset ascii) = length l -> NoDup l.
Proof.
  induction l as [|c l IH]; [constructor|]. simpl. intros Hsz.
  assert (size (list_to_set l : gset ascii) ≤ length l)%nat as Hle.
  { clear. induction l as [|c l IH]; simpl;
      [exact (Nat.eq_le_incl _ _ (size_empty (C:=gset ascii)))|].
    rewrite size_union_alt, size_singleton.
    assert (list_to_set l ∖ {[c]} ⊆ (list_to_set l : gset ascii)) as Hsub.
    { intros x. rewrite elem_of_difference. tauto. }
    apply subseteq_size in Hsub. lia. }
  destruct (decide (c ∈ l)) as [Hin|Hout].
  - assert ({[c]} ∪ list_to_set l = (list_to_set l : gset ascii)) as Heq.
    { apply set_eq. intros x. rewrite elem_of_union, elem_of_singleton.
      rewrite !elem_of_list_to_set. split; [by intros [->|]|auto]. }
    rewrite Heq in Hsz. lia.
  - apply NoDup_cons. split; [done|]. apply IH.
    rewrite size_union, size_singleton in Hsz; [lia|].
    intros x. rewrite elem_of_singleton, elem_of_list_to_set. by intros ->.
Qed.

Lemma has_duplicates_false (s : string) :
  has_duplicates s = false <-> NoDup (chars s).
Proof.
  unfold has_duplicates. rewrite negb_false_iff, Nat.eqb_eq, <- length_chars.
  split.
  - intros H. by apply NoDup_of_size.
  - intros H. by rewrite size_list_to_set.
Qed.



Lemma select_alpha_ok (case : string) (w w' : World) (alphaSet : string) :
  select_alpha case w = (Ok alphaSet, w') ->
  w' = w /\
  (alphaSet = PyString.ascii_lowercase \/ alphaSet = PyString.ascii_letters
   \/ alphaSet = PyString.ascii_uppercase).
Proof.
  unfold select_alpha. repeat case_match; inversion 1; subst; auto.
Qed.

Lemma select_alpha_outcome (case : string) (w w' : World) (r : result string) :
  select_alpha case w = (r, w') ->
  w' = w /\ (r = Raise (ValueError (InvalidCase case)) \/ exists a, r = Ok a).
Proof.
  unfold select_alpha. repeat case_match; inversion 1; subst; eauto.
Qed.

Lemma select_base_outcome (charset_name alphaSet : string)
    (custom : option string) (w w' : World) (r : result unit) :
  select_base charset_name alphaSet custom w = (r, w') ->
  (exists B, r = Ok tt /\ w' = world_with_charset B w
             /\ base_set charset_name alphaSet custom B)
  \/ (exists m, r = Raise (ValueError m) /\ w' = w
                /\ is_configuration_error (ValueError m) = true).
Proof.
  unfold select_base.
  destruct (String.eqb_spec charset_name "recommended") as [->|_].
  { inversion 1. left. eexists. split_and!; [done..|by constructor]. }
  destruct (String.eqb_spec charset_name "numeric") as [->|_].
  { inversion 1. left. eexists. split_and!; [done..|by constructor]. }
  destruct (String.eqb_spec charset_name "alpha") as [->|_].
  { inversion 1. left. eexists. split_and!; [done..|by constructor]. }
  destruct (String.eqb_spec charset_name "alphanumeric") as [->|_].
  { inversion 1. left. eexists. split_and!; [done..|by constructor]. }
  destruct (String.eqb_spec charset_name "custom") as [->|_].
  - destruct custom as [[|c cs]|].
    + inversion 1. right. by eexists.
    + destruct (has_duplicates (String c cs)) eqn:Hdup.
      { inversion 1. right. by eexists. }
      destruct (invalid_chars (String c cs)) eqn:Hinv.
      * inversion 1. left. eexists. split_and!; [done..|].
        apply base_custom; [done..| |].
        -- by apply has_duplicates_false.
        -- by apply invalid_chars_nil.
      * inversion 1. right. by eexists.
    + inversion 1. right. by eexists.
  - rewrite run_bind. simpl. inversion 1. right. by eexists.
Qed.


Lemma apply_omit_outcome (omit : option string) (w w' : World)
    (r : result unit) :
  apply_omit omit w = (r, w') ->
  (r = Ok tt /\ printable_str (default "" omit))
  \/ (exists m, r = Raise (ValueError m) /\ w' = w
                /\ ~ printable_str (default "" omit)
                /\ is_configuration_error (ValueError m) = true).
Proof.
  unfold apply_omit. destruct omit as [o|]; simpl.
  - destruct (invalid_chars o) eqn:Hinv.
    + inversion 1. left. split; [done|]. by apply invalid_chars_nil.
    + inversion 1. right. eexists. split_and!; [done..| |done].
      intros Hp%invalid_chars_nil. congruence.
  - inversion 1. left. split; [done|]. constructor.
Qed.

Lemma apply_add_outcome (add : option string) (w w' : World)
    (r : result unit) :
  apply_add add w = (r, w') ->
  (r = Ok tt /\ printable_str (default "" add))
  \/ (exists m, r = Raise (ValueError m) /\ w' = w
                /\ ~ printable_str (default "" add)
                /\ is_configuration_error (ValueError m) = true).
Proof.
  unfold apply_add. destruct add as [a|]; simpl.
  - destruct (invalid_chars a) eqn:Hinv.
    + inversion 1. left. split; [done|]. by apply invalid_chars_nil.
    + inversion 1. right. eexists. split_and!; [done..| |done].
      intros Hp%invalid_chars_nil. congruence.
  - inversion 1. left. split; [done|]. constructor.
Qed.

(** A successful build went through every step: the case and the name
    selected a base set, both optional strings were printable, and the
    alphabet left in [charset] is not empty. *)
Lemma build_character_set_ok_inv
    (charset_name case : string) (omit add custom : option string)
    (w w' : World) :
  build_character_set charset_name case omit add custom w = (Ok tt, w') ->
  exists alphaSet B,
    select_alpha case w = (Ok alphaSet, w)
    /\ select_base charset_name alphaSet custom w
       = (Ok tt, world_with_charset B w)
    /\ base_set charset_name alphaSet custom B
    /\ printable_str (default "" omit)
    /\ printable_str (default "" add)
    /\ w' = world_with_charset
              (of_chars (filter (fun c => c ∉ chars (default "" omit)) (chars B)
                         ++ chars (default "" add))) w
    /\ (filter (fun c => c ∉ chars (default "" omit)) (chars B)
        ++ chars (default "" add)) ≠ [].
Proof.
  unfold build_character_set. rewrite run_bind.
  destruct (select_alpha case w) as [ra wa] eqn:Ha.
  destruct (select_alpha_outcome _ _ _ _ Ha) as [-> [-> | [alphaSet ->]]];
    [done|].
  rewrite run_bind.
  destruct (select_base charset_name alphaSet custom w) as [rb wb] eqn:Hb.
  destruct (select_base_outcome _ _ _ _ _ _ Hb)
    as [(B & -> & -> & HB) | (m & -> & _)]; [|done].
  rewrite run_bind.
  destruct (apply_omit omit (world_with_charset B w)) as [ro wo] eqn:Ho.
  destruct (apply_omit_outcome _ _ _ _ Ho) as [[-> Hpo] | (m & -> & _)];
    [|done].
  rewrite run_apply_omit in Ho by done. inversion Ho; subst wo; clear Ho.
  rewrite run_bind.
  match goal with |- context [apply_add add ?w0] =>
    destruct (apply_add add w0) as [rd wd] eqn:Hd end.
  destruct (apply_add_outcome _ _ _ _ Hd) as [[-> Hpd] | (m & -> & _)];
    [|done].
  rewrite run_apply_add in Hd by done. inversion Hd; subst wd; clear Hd.
  rewrite chars_of_chars, run_bind. simpl.
  match goal with |- context [of_chars ?l] => destruct l as [|c A'] eqn:EA end;
    [done|].
  inversion 1. exists alphaSet, B. rewrite EA. split_and!; done.
Qed.

(** ** Duplicates in the alphabet *)




(** ** Inputs the builder rejects *)

(** The builder returns normally or raises a configuration error. *)
Lemma build_character_set_outcome
    (charset_name case : string) (omit add custom : option string)
    (w w' : World) (r : result unit) :
  build_character_set charset_name case omit add custom w = (r, w') ->
  r = Ok tt
  \/ exists m, r = Raise (ValueError m)
               /\ is_configuration_error (ValueError m) = true.
Proof.
  unfold build_character_set. rewrite run_bind.
  destruct (select_alpha case w) as [ra wa] eqn:Ha.
  destruct (select_alpha_outcome _ _ _ _ Ha) as [-> [-> | [alphaSet ->]]].
  { inversion 1. right. by eexists. }
  rewrite run_bind.
  destruct (select_base charset_name alphaSet custom w) as [rb wb] eqn:Hb.
  destruct (select_base_outcome _ _ _ _ _ _ Hb)
    as [(B & -> & -> & HB) | (m & -> & _ & Hm)];
    [|inversion 1; right; by eexists].
  rewrite run_bind.
  destruct (apply_omit omit (world_with_charset B w)) as [ro wo] eqn:Ho.
  destruct (apply_omit_outcome _ _ _ _ Ho) as [[-> Hpo] | (m & -> & _ & _ & Hm)];
    [|inversion 1; right; by eexists].
  rewrite run_bind.
  destruct (apply_add add wo) as [rd wd] eqn:Hd.
  destruct (apply_add_outcome _ _ _ _ Hd) as [[-> Hpd] | (m & -> & _ & _ & Hm)];
    [|inversion 1; right; by eexists].
  rewrite run_bind. simpl. destruct (charset (self wd)); inversion 1.
  - right. by eexists.
  - by left.
Qed.

(** C6 (counterexample): with a charset other than "custom" the custom
    string is not looked at: "aa" repeats a character and the build
    succeeds with the ten digits. *)
Lemma build_character_set_ignores_custom :
  ~ NoDup (chars "aa")
  /\ build_character_set "numeric" "upper" None None (Some "aa")
       (world_of (fun _ => O))
     = (Ok tt, world_with_charset "0123456789" (world_of (fun _ => O))).
Proof.
  split; [|reflexivity].
  apply (bool_decide_eq_false_1 (NoDup _)). vm_compute. reflexivity.
Qed.

(** C6 (amended): the builder raises a configuration error, and so
    produces no alphabet, whenever the charset name is "custom" and the
    custom string is unspecified, empty, repeats a character or holds a
    non-printable character; whenever the omit or the add string holds a
    non-printable character; and whenever the selected base set without
    the omitted characters, followed by the add string, is empty. *)
Theorem build_character_set_rejects
    (charset_name case : string) (omit add custom : option string)
    (w : World) :
  (charset_name = "custom"
   /\ (custom = None \/ custom = Some ""
       \/ exists s, custom = Some s
                    /\ (~ NoDup (chars s) \/ ~ printable_str s)))
  \/ (exists s, (omit = Some s \/ add = Some s) /\ ~ printable_str s)
  \/ (exists alphaSet B,
        select_alpha case w = (Ok alphaSet, w)
        /\ select_base charset_name alphaSet custom w
           = (Ok tt, world_with_charset B w)
        /\ filter (fun c => c ∉ chars (default "" omit)) (chars B)
           ++ chars (default "" add) = []) ->
  exists m w',
    build_character_set charset_name case omit add custom w
    = (Raise (ValueError m), w')
    /\ is_configuration_error (ValueError m) = true.
Proof.
  intros Hbad.
  destruct (build_character_set charset_name case omit add custom w)
    as [r w'] eqn:Hrun.
  destruct (build_character_set_outcome _ _ _ _ _ _ _ _ Hrun)
    as [-> | (m & -> & Hm)]; [|by exists m, w'].
  exfalso.
  apply build_character_set_ok_inv in Hrun
    as (alphaSet & B & Ha & Hb & HB & Ho & Hd & _ & Hne).
  destruct Hbad as [[-> Hcustom] | [(s & Hs & Hnp) | Hempty]].
  - inversion HB as [| | | |s Hn Hc Hs Hnd Hp]; try discriminate. subst.
    destruct Hcustom as [? | [? | (s' & ? & Hs')]]; simplify_eq.
    tauto.
  - destruct Hs as [-> | ->]; simpl in *; done.
  - destruct Hempty as (alphaSet' & B' & Ha' & Hb' & HA).
    rewrite Ha in Ha'. inversion Ha'; subst alphaSet'.
    rewrite Hb in Hb'. inversion Hb' as [HB'].
    assert (B' = B) as -> by (by inversion HB'). done.
Qed.

(** A custom set that repeats "a". *)
Lemma build_character_set_rejects_witness :
  exists m w',
    build_character_set "custom" "upper" None None (Some "aab")
      (world_of (fun _ => O))
    = (Raise (ValueError m), w')
    /\ is_configuration_error (ValueError m) = true.
Proof.
  apply (build_character_set_rejects "custom" "upper" None None (Some "aab")).
  left. split; [reflexivity|]. right. right. exists "aab".
  split; [reflexivity|]. left.
  apply (bool_decide_eq_false_1 (NoDup _)). vm_compute. reflexivity.
Defined.

(** ** The constructor *)

Section Constructor.
Variables (prefix_arg suffix_arg : option string) (w : World).

Lemma init_ints (c l : Z) :
  1 <= c -> 1 <= l ->
  init (PyInt c) (PyInt l) prefix_arg suffix_arg w
  = (Ok tt, mkWorld (mkCodeGenerator c l "" ∅ "" prefix_arg suffix_arg
                       "" "" 0 "")
              (fs w) (entropy w) (drawn w) (progress w)).
Proof.
  intros Hc Hl. unfold init. rewrite run_bind. simpl.
  destruct (Z.ltb_spec c 1); [lia|]. destruct (Z.ltb_spec l 1); [lia|].
  done.
Qed.

Lemma init_int_too_small (c l : Z) :
  c < 1 \/ l < 1 ->
  init (PyInt c) (PyInt l) prefix_arg suffix_arg w
  = (Raise (ValueError MustBePositive), w).
Proof.
  intros H. unfold init. rewrite run_bind. simpl.
  destruct (Z.ltb_spec c 1); [done|]. destruct (Z.ltb_spec l 1); [done|].
  lia.
Qed.

Lemma init_none_count (v : pyval) :
  init PyNone v prefix_arg suffix_arg w
  = (Raise (ValueError MustBeIntegers), w).
Proof. reflexivity. Qed.

Lemma init_not_a_number (s : string) (v : pyval) :
  parse_int s = None ->
  init (PyStr s) v prefix_arg suffix_arg w
  = (Raise (ValueError MustBeIntegers), w).
Proof.
  intros Hs. unfold init, try_except. rewrite run_bind, run_bind. simpl.
  rewrite Hs. done.
Qed.
End Constructor.

(** *** Decimal numerals are accepted *)

Lemma digit_of_pretty_char (d : N) :
  (d < 10)%N -> digit_of (pretty_N_char d) = Some (Z.of_N d).
Proof.
  intros Hd.
  assert (d = 0 \/ d = 1 \/ d = 2 \/ d = 3 \/ d = 4 \/ d = 5 \/ d = 6
          \/ d = 7 \/ d = 8 \/ d = 9)%N as Hcases by lia.
  repeat (destruct Hcases as [-> | Hcases]; [reflexivity|]).
  by subst.
Qed.

Lemma digit_is_plain (c : ascii) :
  is_Some (digit_of c) ->
  int_space c = false /\ Ascii.eqb c "-" = false /\ Ascii.eqb c "+" = false.
Proof.
  destruct c as [[] [] [] [] [] [] [] []]; intros [d Hd]; revert Hd;
    vm_compute; done.
Qed.

Lemma pretty_N_go_digits (x : N) (s : string) :
  Forall (fun c => is_Some (digit_of c)) (chars s) ->
  Forall (fun c => is_Some (digit_of c)) (chars (pretty_N_go x s)).
Proof.
  revert s. induction (N.lt_wf_0 x) as [x _ IH]; intros s Hs.
  destruct (decide (x = 0)%N) as [->|Hx]; [by rewrite pretty_N_go_0|].
  rewrite pretty_N_go_step by lia. apply IH; [apply N.div_lt; lia|].
  simpl. constructor; [|done].
  rewrite digit_of_pretty_char by (apply N.mod_lt; lia). by eexists.
Qed.

(** Reading the numeral of [x] back gives [x]. *)
Lemma digits_value_pretty_N_go (x : N) (s : string) (after : bool) :
  (0 < x)%N ->
  digits_value 0 after (chars (pretty_N_go x s))
  = digits_value (Z.of_N x) true (chars s).
Proof.
  revert s after. induction (N.lt_wf_0 x) as [x _ IH]; intros s after Hx.
  rewrite pretty_N_go_step by done.
  pose proof (N.mod_lt x 10 ltac:(lia)) as Hmod.
  pose proof (N.div_mod x 10 ltac:(lia)) as Hdiv.
  destruct (decide (x `div` 10 = 0)%N) as [Hsmall|Hbig].
  - rewrite Hsmall, pretty_N_go_0. simpl.
    rewrite digit_of_pretty_char by done. f_equal. lia.
  - rewrite IH by (try apply N.div_lt; lia). simpl.
    rewrite digit_of_pretty_char by done. f_equal. lia.
Qed.

Lemma strip_plain (l : list ascii) :
  Forall (fun c => int_space c = false) l -> strip int_space l = l.
Proof.
  assert (forall k, Forall (fun c => int_space c = false) k ->
                    lstrip int_space k = k) as Hl.
  { intros [|c k]; [done|]. intros [Hc _]%Forall_cons. simpl. by rewrite Hc. }
  intros Hall. unfold strip. rewrite (Hl l Hall).
  rewrite Hl by (by apply Forall_rev). apply rev_involutive.
Qed.

Lemma pretty_pos_digits (p : positive) :
  digits_value 0 false (chars (pretty (Npos p))) = Some (Zpos p)
  /\ Forall (fun c => is_Some (digit_of c)) (chars (pretty (Npos p))).
Proof.
  unfold pretty, pretty_N. destruct (decide (N.pos p = 0%N)) as [|_]; [done|].
  split.
  - by rewrite digits_value_pretty_N_go.
  - apply pretty_N_go_digits. constructor.
Qed.

(** [int(str(z)) = z]: every decimal numeral is read as its value. *)
Lemma parse_int_pretty (z : Z) : parse_int (pretty z) = Some z.
Proof.
  destruct z as [|p|p]; [done| |];
    destruct (pretty_pos_digits p) as [Hval Hdigits];
    assert (Forall (fun c => int_space c = false) (chars (pretty (Npos p))))
      as Hplain
      by (eapply Forall_impl; [done|]; intros c Hc; by apply digit_is_plain).
  - change (pretty (Z.pos p)) with (pretty (N.pos p)). unfold parse_int.
    rewrite strip_plain by done.
    destruct (chars (pretty (Npos p))) as [|c l] eqn:E; [done|].
    apply Forall_cons in Hdigits as [(_ & Hminus & Hplus)%digit_is_plain _].
    by rewrite Hminus, Hplus.
  - change (pretty (Z.neg p)) with ("-" +:+ pretty (N.pos p)).
    unfold parse_int. rewrite chars_app.
    change (chars "-") with ["-"%char]. simpl app.
    rewrite strip_plain by (by constructor).
    change (Ascii.eqb "-" "-") with true. cbv iota. by rewrite Hval.
Qed.

(** The constructor accepts the numerals of two integers that are at
    least 1, as [main] passes them. *)
Lemma init_numerals (c l : Z) (p s : option string) (w : World) :
  1 <= c -> 1 <= l ->
  init (PyStr (pretty c)) (PyStr (pretty l)) p s w
  = (Ok tt, mkWorld (mkCodeGenerator c l "" ∅ "" p s "" "" 0 "")
              (fs w) (entropy w) (drawn w) (progress w)).
Proof.
  intros Hc Hl. unfold init, try_except. rewrite run_bind, run_bind. simpl.
  rewrite parse_int_pretty. simpl. rewrite parse_int_pretty. simpl.
  destruct (Z.ltb_spec c 1); [lia|]. destruct (Z.ltb_spec l 1); [lia|].
  done.
Qed.

(** C9 (the code at the failing input): 1.5 is not an integer, and the
    constructor accepts it as a count: [int] truncates it to 1. *)
Lemma init_accepts_fraction :
  init (PyFloat (Float 3 (-1))) (PyInt 2) None None (world_of (fun _ => O))
  = (Ok tt, mkWorld (mkCodeGenerator 1 2 "" ∅ "" None None "" "" 0 "")
              empty_fs (fun _ => O) 0 []).
Proof. reflexivity. Qed.

(** ** Rounding of a quotient *)

Lemma round_half_even_ge (n d : Z) : 0 < d -> n / d <= round_half_even n d.
Proof. intros. unfold round_half_even. repeat case_match; lia. Qed.

Lemma round_half_even_le (n d K : Z) :
  0 < d -> n <= d * K -> round_half_even n d <= K.
Proof.
  intros Hd Hn. unfold round_half_even.
  pose proof (Z.div_mod n d ltac:(lia)) as Hdm.
  pose proof (Z.mod_pos_bound n d Hd) as Hr.
  assert (n / d <= K) as Hq by (apply Z.div_le_upper_bound; lia).
  destruct (Z.ltb_spec (2 * (n mod d)) d); [done|].
  assert (n / d < K) by nia.
  repeat case_match; lia.
Qed.

Lemma round_half_even_up (n d K : Z) :
  0 < d -> d * K <= n -> d < 2 * (n - d * K) -> K + 1 <= round_half_even n d.
Proof.
  intros Hd Hn Hhalf. unfold round_half_even.
  pose proof (Z.div_mod n d ltac:(lia)) as Hdm.
  pose proof (Z.mod_pos_bound n d Hd) as Hr.
  assert (K <= n / d) as Hq by (apply Z.div_le_lower_bound; lia).
  destruct (Z.eq_dec (n / d) K) as [HK|HK].
  - rewrite HK in *. assert (n mod d = n - d * K) as -> by lia.
    destruct (Z.ltb_spec (2 * (n - d * K)) d); [lia|].
    destruct (Z.ltb_spec d (2 * (n - d * K))); lia.
  - repeat case_match; lia.
Qed.

(** A quotient that is at most one does not round above one. *)
Lemma float_div_pos_le (a b : Z) :
  0 < a -> a <= b ->
  exists m e, float_div_pos a b = Ok (Float m e)
              /\ float_gt_one (Float m e) = false.
Proof.
  intros Ha Hab. unfold float_div_pos.
  set (d := Z.log2 a - Z.log2 b).
  assert (d <= 0) as Hd by (pose proof (Z.log2_le_mono a b Hab); lia).
  set (top := if ratio_ge_pow2 a b d then d else d - 1).
  assert (top <= 0) as Htop by (unfold top; case_match; lia).
  set (e := Z.max (top - 52) (-1074)).
  assert (e < 0) as He by lia.
  destruct (Z.leb_spec 0 e); [lia|]. simpl.
  eexists _, _. split; [done|]. simpl.
  destruct (Z.leb_spec 0 e); [lia|].
  apply Z.ltb_ge. unfold mantissa_at.
  destruct (Z.leb_spec 0 e); [lia|].
  apply round_half_even_le; [lia|].
  assert (0 < 2 ^ (- e)) by (apply Z.pow_pos_nonneg; lia). nia.
Qed.

(** The exponent the division picks is not above the quotient. *)
Lemma ratio_ge_pow2_top (a b : Z) :
  0 < a -> 0 < b ->
  let d := Z.log2 a - Z.log2 b in
  ratio_ge_pow2 a b (if ratio_ge_pow2 a b d then d else d - 1) = true.
Proof.
  intros Ha Hb d. destruct (ratio_ge_pow2 a b d) eqn:Hd; [done|].
  pose proof (Z.log2_spec a Ha) as [Ha1 Ha2].
  pose proof (Z.log2_spec b Hb) as [Hb1 Hb2].
  pose proof (Z.log2_nonneg a). pose proof (Z.log2_nonneg b).
  unfold ratio_ge_pow2. destruct (Z.leb_spec 0 (d - 1)).
  - apply Z.leb_le.
    assert (2 ^ Z.succ (Z.log2 b) * 2 ^ (d - 1) = 2 ^ Z.log2 a) as Hpow.
    { rewrite <- Z.pow_add_r by lia. f_equal. lia. }
    assert (0 < 2 ^ (d - 1)) by (apply Z.pow_pos_nonneg; lia). nia.
  - apply Z.leb_le.
    assert (2 ^ Z.log2 a * 2 ^ (- (d - 1)) = 2 ^ Z.succ (Z.log2 b)) as Hpow.
    { rewrite <- Z.pow_add_r by lia. f_equal. lia. }
    assert (0 < 2 ^ (- (d - 1))) by (apply Z.pow_pos_nonneg; lia). nia.
Qed.

(** Below [2^53] possible codes, a count above them gives a quotient that
    rounds above one, or is beyond the floats. *)
Lemma float_div_pos_gt (a b : Z) :
  0 < b -> b < a -> b < 2 ^ 53 ->
  float_div_pos a b = Raise OverflowError
  \/ exists f, float_div_pos a b = Ok f /\ float_gt_one f = true.
Proof.
  intros Hb Hab Hsmall. unfold float_div_pos.
  pose proof (ratio_ge_pow2_top a b ltac:(lia) Hb) as Htop. simpl in Htop.
  set (d := Z.log2 a - Z.log2 b) in *.
  assert (0 <= d) as Hd by (pose proof (Z.log2_le_mono b a); lia).
  set (top := if ratio_ge_pow2 a b d then d else d - 1) in *.
  assert (0 <= top) as Htop0.
  { unfold top. destruct (ratio_ge_pow2 a b d) eqn:E; [done|].
    destruct (Z.eq_dec d 0) as [Hd0|]; [|lia].
    rewrite Hd0 in E. unfold ratio_ge_pow2 in E. simpl in E.
    apply Z.leb_gt in E. lia. }
  unfold ratio_ge_pow2 in Htop. destruct (Z.leb_spec 0 top); [|lia].
  apply Z.leb_le in Htop.
  assert (Z.max (top - 52) (-1074) = top - 52) as -> by lia.
  unfold mantissa_at.
  destruct (Z.leb_spec 0 (top - 52)) as [He|He]; simpl.
  - (* the mantissa is at least 2^52 *)
    assert (2 ^ top = 2 ^ (top - 52) * 2 ^ 52) as Hpow.
    { rewrite <- Z.pow_add_r by lia. f_equal. lia. }
    assert (0 < 2 ^ (top - 52)) by (apply Z.pow_pos_nonneg; lia).
    set (m := round_half_even a (b * 2 ^ (top - 52))).
    assert (2 ^ 52 <= m) as Hm.
    { etrans; [|apply round_half_even_ge; nia].
      apply Z.div_le_lower_bound; nia. }
    destruct (2 ^ 1024 <=? m * 2 ^ (top - 52)); [by left|].
    right. eexists. split; [done|]. simpl.
    destruct (Z.leb_spec 0 (top - 52)); [|lia].
    apply Z.ltb_lt. assert (1 < 2 ^ 52) by done. nia.
  - right. eexists. split; [done|]. simpl.
    destruct (Z.leb_spec 0 (top - 52)); [lia|].
    apply Z.ltb_lt.
    assert (2 ^ top * 2 ^ (- (top - 52)) = 2 ^ 52) as Hpow.
    { rewrite <- Z.pow_add_r by lia. f_equal. lia. }
    assert (0 < 2 ^ (- (top - 52))) as Hk by (apply Z.pow_pos_nonneg; lia).
    set (k := 2 ^ (- (top - 52))) in *.
    destruct (Z.eq_dec top 0) as [Htop1|Htop1].
    + rewrite Htop1 in *. change (2 ^ 0) with 1 in *.
      assert (k = 2 ^ 52) as Hk52 by lia.
      assert (k + 1 <= round_half_even (a * k) b); [|lia].
      apply round_half_even_up; [lia|nia|].
      rewrite Hk52. change (2 ^ 53) with (2 * 2 ^ 52) in Hsmall. nia.
    + assert (2 <= 2 ^ top) as H2.
      { change 2 with (2 ^ 1) at 1. apply Z.pow_le_mono_r; lia. }
      eapply Z.lt_le_trans; [|apply round_half_even_ge; lia].
      assert (2 * k <= a * k / b); [|lia].
      apply Z.div_le_lower_bound; nia.
Qed.

Lemma round_half_even_le_succ (n d : Z) :
  0 < d -> round_half_even n d <= n / d + 1.
Proof. intros. unfold round_half_even. repeat case_match; lia. Qed.

(** A quotient of integers below [2^1000] that is at least one is within
    the floats. *)
Lemma float_div_pos_finite (a b : Z) :
  0 < b -> b <= a -> a < 2 ^ 1000 ->
  exists f, float_div_pos a b = Ok f.
Proof.
  intros Hb Hab Ha. unfold float_div_pos.
  pose proof (ratio_ge_pow2_top a b ltac:(lia) Hb) as Htop. simpl in Htop.
  set (d := Z.log2 a - Z.log2 b) in *.
  assert (0 <= d) as Hd by (pose proof (Z.log2_le_mono b a); lia).
  set (top := if ratio_ge_pow2 a b d then d else d - 1) in *.
  assert (0 <= top) as Htop0.
  { unfold top. destruct (ratio_ge_pow2 a b d) eqn:E; [done|].
    destruct (Z.eq_dec d 0) as [Hd0|]; [|lia].
    rewrite Hd0 in E. unfold ratio_ge_pow2 in E. simpl in E.
    apply Z.leb_gt in E. lia. }
  unfold ratio_ge_pow2 in Htop. destruct (Z.leb_spec 0 top); [|lia].
  apply Z.leb_le in Htop.
  assert (Z.max (top - 52) (-1074) = top - 52) as -> by lia.
  destruct (Z.leb_spec 0 (top - 52)) as [He|He]; simpl; [|by eexists].
  unfold mantissa_at. destruct (Z.leb_spec 0 (top - 52)); [|lia].
  assert (2 ^ top = 2 ^ (top - 52) * 2 ^ 52) as Hpow.
  { rewrite <- Z.pow_add_r by lia. f_equal. lia. }
  assert (0 < 2 ^ (top - 52)) as Hk by (apply Z.pow_pos_nonneg; lia).
  set (k := 2 ^ (top - 52)) in *.
  pose proof (round_half_even_le_succ a (b * k) ltac:(nia)) as Hm.
  pose proof (Z.mul_div_le a (b * k) ltac:(nia)) as Hq.
  destruct (Z.leb_spec (2 ^ 1024) (round_half_even a (b * k) * k));
    [|by eexists].
  assert (0 <= a / (b * k)) as Hq0 by (apply Z.div_pos; nia).
  assert (k <= a) as Hka by (assert (1 <= 2 ^ 52) by done; nia).
  assert (a / (b * k) * k <= a) as Hqk by nia.
  assert (round_half_even a (b * k) * k <= (a / (b * k) + 1) * k) as Hmk
    by nia.
  assert (2 * 2 ^ 1000 <= 2 ^ 1024) as H1024 by done.
  lia.
Qed.

(** ** The capacity check *)

Lemma run_true_divide_pos (a b : Z) (w : World) :
  0 < a -> 0 < b ->
  true_divide a b w
  = (match float_div_pos a b with
     | Ok f => Ok f
     | Raise e => Raise e
     | Timeout => Timeout
     end, w).
Proof.
  intros Ha Hb. unfold true_divide.
  destruct (Z.eqb_spec b 0); [lia|]. destruct (Z.eqb_spec a 0); [lia|].
  rewrite !Z.abs_eq by lia.
  destruct (float_div_pos a b); try done.
  destruct (Z.eqb_spec (Z.sgn a) (Z.sgn b)); [done|lia].
Qed.

Section Capacity.
Variables (w : World) (fuel : nat).
Let g := self w.
Let combinations := len (charset g) ^ codes_length g.

(** A count within the number of strings passes the check: the
    generator goes on to the sampling loop. *)
Lemma generate_codes_within_capacity :
  1 <= codes_count g -> codes_count g <= combinations ->
  generate_codes fuel w = generate_loop fuel 0 w.
Proof.
  intros Hc Hle. unfold generate_codes, check_probability.
  rewrite run_bind, run_bind. simpl. fold g. unfold int_pow. fold combinations.
  rewrite run_true_divide_pos by lia.
  destruct (float_div_pos_le (codes_count g) combinations)
    as (m & e & -> & Hgt); [lia..|].
  by rewrite Hgt.
Qed.

(** A count above the number of strings is refused before any draw, as
    long as there are fewer than [2^53] strings; the refusal is the
    capacity error unless the quotient is beyond the floats. *)
Lemma generate_codes_over_capacity :
  1 <= combinations -> combinations < 2 ^ 53 ->
  combinations < codes_count g ->
  generate_codes fuel w
  = (Raise (ValueError (CannotGenerate (codes_count g) (codes_length g)
                          (len (charset g)))), w)
  \/ generate_codes fuel w = (Raise OverflowError, w).
Proof.
  intros H1 Hsmall Hgt. unfold generate_codes, check_probability.
  rewrite run_bind, run_bind. simpl. fold g. unfold int_pow. fold combinations.
  rewrite run_true_divide_pos by lia.
  destruct (float_div_pos_gt (codes_count g) combinations)
    as [-> | (f & -> & Hf)]; [lia..|by right|].
  left. by rewrite Hf.
Qed.

(** With a count below [2^1000] it is the capacity error. *)
Lemma generate_codes_over_capacity_error :
  1 <= combinations -> combinations < 2 ^ 53 ->
  combinations < codes_count g -> codes_count g < 2 ^ 1000 ->
  generate_codes fuel w
  = (Raise (ValueError (CannotGenerate (codes_count g) (codes_length g)
                          (len (charset g)))), w).
Proof.
  intros H1 Hsmall Hgt Hbig. unfold generate_codes, check_probability.
  rewrite run_bind, run_bind. simpl. fold g. unfold int_pow. fold combinations.
  rewrite run_true_divide_pos by lia.
  destruct (float_div_pos_finite (codes_count g) combinations) as [f Hfin];
    [lia..|].
  destruct (float_div_pos_gt (codes_count g) combinations)
    as [Hov | (f' & Hf' & Hone)]; [lia..|congruence|].
  rewrite Hf'. by rewrite Hone.
Qed.
End Capacity.

(** C2 (the code at the failing input): there are [10^16] strings of 16
    digits; one more is requested, the quotient rounds to 1.0, and the
    generator enters the sampling loop instead of raising. *)
Lemma generate_codes_misses_capacity (draws : nat -> nat) (fuel : nat) :
  let w := mkWorld crowded_object empty_fs draws 0 [] in
  len (charset crowded_object) ^ codes_length crowded_object
  < codes_count crowded_object
  /\ check_probability w = (Ok (Float (2 ^ 52) (-52)), w)
  /\ generate_codes fuel w = generate_loop fuel 0 w.
Proof.
  intros w. split; [done|].
  assert (check_probability w = (Ok (Float (2 ^ 52) (-52)), w)) as Hp
    by (vm_compute; reflexivity).
  split; [done|]. unfold generate_codes. by rewrite run_bind, Hp.
Qed.

Lemma crowded_object_built (draws : nat -> nat) :
  (init (PyStr "10000000000000001") (PyStr "16") None None;;
   build_character_set "numeric" "upper" None None None)
    (mkWorld new_object empty_fs draws 0 [])
  = (Ok tt, mkWorld crowded_object empty_fs draws 0 []).
Proof. vm_compute. reflexivity. Qed.

(** ** The sampling loop *)

Lemma decorate_spec (p s : option string) (core : string) :
  decorate p s core = default "" p +:+ core +:+ default "" s.
Proof.
  unfold decorate. apply chars_inj.
  destruct p, s; simpl; rewrite ?chars_app; simpl;
    by rewrite ?app_nil_r, <- ?app_assoc.
Qed.

Lemma random_choice_spec (s : string) (w w' : World) (r : result ascii) :
  random_choice s w = (r, w') ->
  self w' = self w /\ fs w' = fs w /\ r ≠ Timeout
  /\ forall c, r = Ok c -> c ∈ chars s.
Proof.
  unfold random_choice. destruct (chars s) as [|c0 l] eqn:E.
  - inversion 1. split_and!; done.
  - remember (c0 :: l) as l0 eqn:El0.
    intros [= <- <-]. split_and!; [done..|]. intros c [= <-].
    apply list_elem_of_In, nth_In, Nat.mod_upper_bound. by subst l0.
Qed.

Lemma random_chars_spec (n : nat) (s : string) (w w' : World)
    (r : result (list ascii)) :
  random_chars n s w = (r, w') ->
  self w' = self w /\ fs w' = fs w /\ r ≠ Timeout
  /\ forall core, r = Ok core ->
       length core = n /\ Forall (fun c => c ∈ chars s) core.
Proof.
  revert w w' r. induction n as [|n IH]; intros w w' r; simpl.
  - inversion 1. split_and!; [done..|]. by intros core [= <-].
  - rewrite run_bind. destruct (random_choice s w) as [rc wc] eqn:Hc.
    apply random_choice_spec in Hc as (Hs & Hf & Ht & Hin).
    destruct rc as [c| |]; [|inversion 1; subst; by split_and!|done].
    rewrite run_bind. destruct (random_chars n s wc) as [rs ws] eqn:Hrs.
    apply IH in Hrs as (Hs' & Hf' & Ht' & Hcore).
    destruct rs as [cs| |]; [|inversion 1; subst; split_and!; congruence|done].
    inversion 1; subst. split_and!; [congruence..|done|].
    intros core [= <-]. destruct (Hcore cs eq_refl) as [Hlen Hall].
    split; [simpl; congruence|]. constructor; auto.
Qed.

(** The loop only raises what the draws raise, and keeps the disk. *)
Lemma generate_loop_fs (fuel : nat) (k : Z) (w w' : World) (r : result unit) :
  generate_loop fuel k w = (r, w') -> fs w' = fs w.
Proof.
  revert k w w' r. induction fuel as [|fuel IH]; intros k w w' r; simpl;
    rewrite run_bind; simpl.
  - destruct (k <? codes_count (self w)); by inversion 1.
  - destruct (k <? codes_count (self w)); [|by inversion 1].
    rewrite run_bind.
    destruct (random_chars _ _ w) as [rc wc] eqn:Hc.
    apply random_chars_spec in Hc as (Hs & Hf & Ht & _).
    destruct rc as [core| |]; [|inversion 1; congruence|done].
    case_bool_decide.
    + intros ->%IH. done.
    + rewrite run_bind. simpl. rewrite run_bind. simpl.
      intros ->%IH. done.
Qed.

(** Leaving the loop: nothing is added. *)
Lemma loop_done (k : Z) (w : World) :
  k <= codes_count (self w) -> codes_count (self w) <= k ->
  exists new : list string,
    self w = with_codes_set (list_to_set new ∪ codes_set (self w)) (self w)
    /\ NoDup new
    /\ (forall code, code ∈ new -> code ∉ codes_set (self w))
    /\ Z.of_nat (length new) = codes_count (self w) - k
    /\ (0 <= codes_length (self w) ->
        Forall (code_of_object (self w)) new).
Proof.
  intros H1 H2. exists []. split_and!.
  - destruct (self w). unfold with_codes_set. simpl. f_equal.
    by rewrite (left_id_L ∅ (∪)).
  - constructor.
  - by intros code ?%elem_of_nil.
  - simpl. lia.
  - by constructor.
Qed.

(** The loop invariant: a completed loop started at [k] codes added
    [codes_count - k] codes of the object, all new and all different, and
    changed nothing else in the object. *)
Lemma generate_loop_spec (fuel : nat) (k : Z) (w w' : World) :
  k <= codes_count (self w) ->
  generate_loop fuel k w = (Ok tt, w') ->
  exists new : list string,
    self w' = with_codes_set (list_to_set new ∪ codes_set (self w)) (self w)
    /\ NoDup new
    /\ (forall code, code ∈ new -> code ∉ codes_set (self w))
    /\ Z.of_nat (length new) = codes_count (self w) - k
    /\ (0 <= codes_length (self w) ->
        Forall (code_of_object (self w)) new).
Proof.
  revert k w w'. induction fuel as [|fuel IH]; intros k w w' Hk; simpl;
    rewrite run_bind; simpl.
  - destruct (Z.ltb_spec k (codes_count (self w))); [done|].
    intros [= <-]. by apply loop_done.
  - destruct (Z.ltb_spec k (codes_count (self w)));
      [|intros [= <-]; by apply loop_done].
    rewrite run_bind.
    destruct (random_chars _ _ w) as [rc wc] eqn:Hc.
    apply random_chars_spec in Hc as (Hs & Hf & Ht & Hcore).
    destruct rc as [core| |]; [|done..].
    destruct (Hcore core eq_refl) as [Hlen Hall].
    set (code := decorate (prefix (self w)) (suffix (self w)) (of_chars core)).
    case_bool_decide as Hin.
    + intros Hloop. apply IH in Hloop; rewrite ?Hs in *; done.
    + rewrite run_bind. simpl. rewrite run_bind. simpl.
      intros Hloop. apply IH in Hloop; simpl; [|rewrite Hs; simpl; lia].
      destruct Hloop as (new & Hself & Hnd & Hfresh & Hn & Hwf).
      simpl in *. rewrite Hs in *. simpl in *.
      exists (code :: new). split_and!.
      * rewrite Hself. unfold with_codes_set. simpl. f_equal.
        apply set_eq. intros x. rewrite !elem_of_union. tauto.
      * apply NoDup_cons. split; [|done]. intros Hc'.
        apply Hfresh in Hc'. apply Hc'.
        apply elem_of_union. left. by apply elem_of_singleton.
      * intros x [->|Hx]%elem_of_cons; [done|].
        apply Hfresh in Hx. intros Hx'. apply Hx.
        apply elem_of_union. by right.
      * simpl length. lia.
      * intros HL. constructor; [|by apply Hwf].
        exists core. split_and!; [apply decorate_spec| |done].
        rewrite Hlen. lia.
Qed.

(** *** Draws with which the loop completes *)

Lemma drawn_chars_S (draws : nat -> nat) (d n : nat) (l : list ascii) :
  drawn_chars draws d (S n) l
  = nth (draws d mod length l)%nat l (hd "000"%char l)
    :: drawn_chars draws (S d) n l.
Proof.
  unfold drawn_chars. change (seq 0 (S n)) with (0%nat :: seq 1 n).
  rewrite <- (fmap_S_seq 0), fmap_cons, <- list_fmap_compose, Nat.add_0_r.
  f_equal. apply list_fmap_ext. intros i t _. simpl.
  by rewrite Nat.add_succ_r.
Qed.

Lemma run_random_chars (n : nat) (s : string) (w : World) :
  chars s ≠ [] ->
  random_chars n s w
  = (Ok (drawn_chars (entropy w) (drawn w) n (chars s)),
     mkWorld (self w) (fs w) (entropy w) (drawn w + n) (progress w)).
Proof.
  intros Hne. revert w. induction n as [|n IH]; intros w.
  - simpl. unfold mret, M_ret. f_equal. destruct w; simpl. f_equal. lia.
  - rewrite drawn_chars_S. simpl. rewrite run_bind. unfold random_choice at 1.
    destruct (chars s) as [|c0 l] eqn:E; [done|]. rewrite <- E in *.
    rewrite run_bind, IH. unfold mret, M_ret. simpl. rewrite E. simpl.
    do 2 f_equal. lia.
Qed.






(** C1: when the count is at least 1 and at most the number of strings of
    [codes_length >= 1] characters of the charset, and the generator, started
    on an empty code set, completes, the code set holds exactly
    [codes_count] strings, pairwise distinct, each the prefix, then
    [codes_length] characters of the charset, then the suffix. *)
Theorem generate_codes_result (w w' : World) (fuel : nat) :
  1 <= codes_length (self w) ->
  1 <= codes_count (self w) ->
  codes_count (self w) <= len (charset (self w)) ^ codes_length (self w) ->
  codes_set (self w) = ∅ ->
  generate_codes fuel w = (Ok tt, w') ->
  let codes := elements (codes_set (self w')) in
  Z.of_nat (length codes) = codes_count (self w)
  /\ NoDup codes
  /\ Forall (code_of_object (self w)) codes.
Proof.
  intros HL Hc Hcap Hempty Hrun codes.
  rewrite generate_codes_within_capacity in Hrun by done.
  apply generate_loop_spec in Hrun as (new & Hself & Hnd & _ & Hn & Hwf);
    [|lia].
  assert (codes_set (self w') = list_to_set new) as Hset.
  { rewrite Hself, Hempty. simpl. by rewrite (right_id_L ∅ (∪)). }
  split_and!.
  - unfold codes. rewrite Hset.
    change (length (elements (list_to_set new : gset string)))
      with (size (list_to_set new : gset string)).
    rewrite size_list_to_set by done. lia.
  - apply NoDup_elements.
  - apply Forall_forall. intros code Hcode.
    unfold codes in Hcode. rewrite Hset in Hcode.
    apply elem_of_elements, elem_of_list_to_set in Hcode.
    specialize (Hwf ltac:(lia)). rewrite Forall_forall in Hwf. by apply Hwf.
Qed.

(** Three codes of two digits after "X-": "X-07", "X-41" and "X-85". *)
Lemma generate_codes_result_witness :
  let codes := elements (codes_set (self three_codes_end)) in
  Z.of_nat (length codes) = codes_count (self three_codes_start)
  /\ NoDup codes
  /\ Forall (code_of_object (self three_codes_start)) codes.
Proof.
  apply (generate_codes_result three_codes_start three_codes_end 5).
  - vm_compute. discriminate.
  - vm_compute. discriminate.
  - vm_compute. discriminate.
  - reflexivity.
  - vm_compute. reflexivity.
Defined.

(** ** The writer *)

Lemma write_file_twice (path : string) (r1 r2 : list (list string))
    (f : FileSystem) :
  write_file path r2 (write_file path r1 f) = write_file path r2 f.
Proof. unfold write_file. simpl. by rewrite insert_insert_eq. Qed.

Lemma world_with_fs_twice (f1 f2 : FileSystem) (w : World) :
  world_with_fs f2 (world_with_fs f1 w) = world_with_fs f2 w.
Proof. reflexivity. Qed.

(** The rows written after [open]: the file holds one row per code, the
    fields [split] finds in it. *)
Lemma run_write_rows (path : string) (codes : list string)
    (rows : list (list string)) (w : World) :
  files (fs w) !! path = Some rows ->
  for_each codes (fun code => writerow path (split code)) w
  = (Ok tt, world_with_fs (write_file path (rows ++ map split codes) (fs w)) w).
Proof.
  revert rows w. induction codes as [|code codes IH]; intros rows w Hrows.
  - simpl. unfold mret, M_ret. f_equal.
    destruct w as [g f e d p]. destruct f as [ds fl lk].
    unfold world_with_fs, write_file. simpl in *.
    rewrite app_nil_r, insert_id by done. done.
  - simpl. rewrite run_bind. unfold writerow at 1, set_fs at 1. simpl.
    rewrite Hrows. simpl.
    erewrite IH by (simpl; apply lookup_insert_eq).
    f_equal. unfold world_with_fs, write_file. simpl.
    rewrite insert_insert_eq, <- app_assoc. done.
Qed.

Lemma run_save_file (g : CodeGenerator) (codes : list string) (k i : Z)
    (w : World) :
  file_path g k i ∉ locked (fs w) ->
  save_file g codes k i w
  = (Ok tt, world_with_fs
              (write_file (file_path g k i) (map split (file_codes g codes i))
                 (fs w)) w).
Proof.
  intros Hfree. unfold save_file, try_except. rewrite run_bind.
  unfold open_w. rewrite bool_decide_eq_false_2 by done.
  unfold set_fs. simpl.
  erewrite run_write_rows by (simpl; apply lookup_insert_eq).
  f_equal. unfold world_with_fs, write_file. simpl.
  by rewrite insert_insert_eq.
Qed.

(** The files of a list of indices, written in order. *)
Lemma run_save_files (g : CodeGenerator) (codes : list string) (k : Z)
    (idx : list Z) (w : World) :
  (forall i, i ∈ idx -> file_path g k i ∉ locked (fs w)) ->
  for_each idx (save_file g codes k) w
  = (Ok tt, world_with_fs
              (foldl (fun f i => write_file (file_path g k i)
                                   (map split (file_codes g codes i)) f)
                 (fs w) idx) w).
Proof.
  revert w. induction idx as [|i idx IH]; intros w Hfree.
  - simpl. unfold mret, M_ret. f_equal. by destruct w.
  - simpl. rewrite run_bind, run_save_file by (apply Hfree; left).
    rewrite IH by (simpl; intros j Hj; apply Hfree; by right). done.
Qed.

Section Written.
Context {A : Type} (path : A -> string) (rows : A -> list (list string)).

Lemma written_other (idx : list A) (f : FileSystem) (p : string) :
  (forall i, i ∈ idx -> p ≠ path i) ->
  files (foldl (fun f i => write_file (path i) (rows i) f) f idx) !! p
  = files f !! p.
Proof.
  revert f. induction idx as [|i idx IH]; intros f Hp; [done|].
  simpl. rewrite IH by (intros j Hj; apply Hp; by right).
  simpl. apply lookup_insert_ne. intros Heq. by apply (Hp i); [left|].
Qed.

Lemma written_file (idx : list A) (f : FileSystem) (i : A) :
  NoDup (path <$> idx) -> i ∈ idx ->
  files (foldl (fun f i => write_file (path i) (rows i) f) f idx) !! path i
  = Some (rows i).
Proof.
  revert f. induction idx as [|j idx IH]; intros f Hnd Hi.
  { by apply elem_of_nil in Hi. }
  rewrite fmap_cons in Hnd. apply NoDup_cons in Hnd as [Hj Hnd]. simpl.
  destruct (decide (path i = path j)) as [Heq|Hne].
  - rewrite written_other.
    + simpl. rewrite Heq, lookup_insert_eq.
      apply elem_of_cons in Hi as [->|Hi]; [done|].
      exfalso. apply Hj. rewrite <- Heq. by apply list_elem_of_fmap_2.
    + intros j' Hj' Heq'. apply Hj. rewrite <- Heq, Heq'.
      by apply list_elem_of_fmap_2.
  - apply IH; [done|]. apply elem_of_cons in Hi as [->|Hi]; done.
Qed.

End Written.

(** ** Splitting the codes over the files *)

Lemma file_codes_chunk (g : CodeGenerator) (codes : list string) (i : Z) :
  1 <= maxlines g -> 0 <= i ->
  file_codes g codes i
  = take (Z.to_nat (maxlines g)) (drop (Z.to_nat (i * maxlines g)) codes).
Proof.
  intros Hm Hi. unfold file_codes, slice, clamp_index.
  set (m := maxlines g) in *. set (n := Z.of_nat (length codes)).
  destruct (Z.ltb_spec (i * m) 0); [nia|].
  destruct (Z.ltb_spec ((i + 1) * m) 0); [nia|].
  destruct (Z.le_gt_cases (i * m) n) as [Hle|Hgt].
  - rewrite (Z.min_l (i * m) n) by done.
    destruct (Z.le_gt_cases ((i + 1) * m) n) as [Hle'|Hgt'].
    + rewrite Z.min_l by done. f_equal. lia.
    + rewrite Z.min_r by lia.
      rewrite !take_ge; [done| |]; rewrite length_drop; unfold n in *; lia.
  - rewrite !Z.min_r by nia.
    rewrite !drop_ge by (unfold n in *; lia). by rewrite !take_nil.
Qed.




(** ** The names of the files *)

Lemma output_file_name_inj (g : CodeGenerator) (k i j : Z) :
  1 < k -> output_file_name g k i = output_file_name g k j -> i = j.
Proof.
  intros Hk. unfold output_file_name. destruct (Z.ltb_spec 1 k); [|lia].
  intros Heq%(f_equal chars). rewrite !chars_app in Heq.
  apply app_inv_head, app_inv_head, app_inv_tail, chars_inj in Heq.
  apply (inj pretty) in Heq. lia.
Qed.

Lemma path_join_inj (a b1 b2 : string) :
  starts_with_sep b1 = starts_with_sep b2 ->
  path_join a b1 = path_join a b2 -> b1 = b2.
Proof.
  unfold path_join. intros <-. destruct (starts_with_sep b1); [done|].
  destruct (_ || _); intros Heq%(f_equal chars); rewrite !chars_app in Heq;
    repeat apply app_inv_head in Heq; by apply chars_inj.
Qed.

Lemma starts_with_sep_numbered (base t : string) :
  starts_with_sep (base +:+ "_" +:+ t) = starts_with_sep (base +:+ "_").
Proof. by destruct base. Qed.

Lemma file_path_inj (g : CodeGenerator) (k i j : Z) :
  1 < k -> file_path g k i = file_path g k j -> i = j.
Proof.
  intros Hk Heq. apply (output_file_name_inj g k); [done|].
  apply (path_join_inj (save_directory g)); [|done].
  unfold output_file_name. destruct (Z.ltb_spec 1 k); [|lia].
  by rewrite !starts_with_sep_numbered.
Qed.

Lemma file_paths_NoDup (g : CodeGenerator) (k : Z) :
  NoDup (file_path g k <$> seqZ 0 k).
Proof.
  apply NoDup_fmap_2_strong; [|apply NoDup_seqZ].
  intros i j Hi%elem_of_seqZ Hj%elem_of_seqZ Heq.
  destruct (Z.le_gt_cases k 1); [lia|]. by apply (file_path_inj g k).
Qed.

Lemma run_save_codes (w : World) :
  let g := self w in
  let codes := elements (codes_set g) in
  let k := (Z.of_nat (length codes) - 1) / maxlines g + 1 in
  let f1 := if path_exists (save_directory g) (fs w) then fs w
            else mkFileSystem ({[save_directory g]} ∪ dirs (fs w))
                   (files (fs w)) (locked (fs w)) in
  maxlines g ≠ 0 ->
  (forall i, 0 <= i < k -> file_path g k i ∉ locked (fs w)) ->
  save_codes w
  = (Ok tt, world_with_fs
              (foldl (fun f i => write_file (file_path g k i)
                                   (split <$> file_codes g codes i) f)
                 f1 (seqZ 0 k)) w).
Proof.
  intros g codes k f1 Hm Hfree. unfold save_codes.
  rewrite run_bind. simpl. rewrite run_bind. simpl. rewrite run_bind.
  fold g.
  assert ((if path_exists (save_directory g) (fs w) then mret ()
           else makedirs (save_directory g)) w
          = (Ok tt, world_with_fs f1 w)) as ->.
  { unfold f1. destruct (path_exists _ _); [|done].
    unfold mret, M_ret. f_equal. by destruct w. }
  rewrite run_bind. unfold floor_div.
  destruct (Z.eqb_spec (maxlines g) 0); [done|]. simpl.
  fold codes. fold k.
  rewrite run_save_files.
  - done.
  - intros i Hi%elem_of_seqZ. simpl.
    assert (locked f1 = locked (fs w)) as ->
      by (unfold f1; by destruct (path_exists _ _)).
    apply Hfree. lia.
Qed.



(** ** One code per row *)


Lemma split_from_fields (cur l : list ascii) (field : string) :
  Forall (fun c => py_isspace c = false) cur ->
  field ∈ split_from cur l ->
  Forall (fun c => py_isspace c = false) (chars field).
Proof.
  revert cur. induction l as [|c l IH]; intros cur Hcur; simpl.
  - destruct cur as [|c0 cur]; simpl; [by intros ?%elem_of_nil|].
    intros ->%list_elem_of_singleton. rewrite chars_of_chars.
    by apply Forall_rev in Hcur.
  - destruct (py_isspace c) eqn:Hc.
    + intros [Hf|Hf]%elem_of_app; [|by apply (IH [])].
      destruct cur as [|c0 cur]; simpl in Hf; [by apply elem_of_nil in Hf|].
      apply list_elem_of_singleton in Hf as ->. rewrite chars_of_chars.
      by apply Forall_rev in Hcur.
    + apply IH. by constructor.
Qed.


(** C4 (the code at the failing input): one code of one digit after the
    prefix "A B".  The code generated is "A B7"; the row written for it
    holds the two fields "A" and "B7", not the code. *)
Lemma save_codes_splits_code :
  let r := main spaced_prefix_args "" "" 1 (world_of (fun _ => 7%nat)) in
  r.1 = Ok CodesSaved
  /\ elements (codes_set (self r.2)) = ["A B7"]
  /\ files (fs r.2) !! "codes/out.csv" = Some [["A"; "B7"]].
Proof. vm_compute. done. Qed.

(** ** Validation comes before the disk *)

Create HintDb keeps_fs.

Lemma keeps_fs_ret {A} (a : A) : keeps_fs (mret a).
Proof. by intros w r w' [= <- <-]. Qed.

Lemma keeps_fs_raise {A} (e : exn) : keeps_fs (raise e : M A).
Proof. by intros w r w' [= <- <-]. Qed.

Lemma keeps_fs_out_of_fuel {A} : keeps_fs (out_of_fuel : M A).
Proof. by intros w r w' [= <- <-]. Qed.

Lemma keeps_fs_bind {A B} (m : M A) (k : A -> M B) :
  keeps_fs m -> (forall a, keeps_fs (k a)) -> keeps_fs (m ≫= k).
Proof.
  intros Hm Hk w r w'. rewrite run_bind.
  destruct (m w) as [[a|e|] w1] eqn:E; apply Hm in E.
  - intros ->%Hk. done.
  - by intros [= <- <-].
  - by intros [= <- <-].
Qed.

Lemma keeps_fs_try {A} (m : M A) (h : exn -> option (M A)) :
  keeps_fs m -> (forall e k, h e = Some k -> keeps_fs k) ->
  keeps_fs (try_except m h).
Proof.
  intros Hm Hh w r w'. unfold try_except.
  destruct (m w) as [[a|e|] w1] eqn:E; apply Hm in E;
    [by intros [= <- <-]| |by intros [= <- <-]].
  destruct (h e) as [k|] eqn:Ek; [|by intros [= <- <-]].
  intros ->%(Hh e k Ek). done.
Qed.

Lemma keeps_fs_get_self : keeps_fs get_self.
Proof. by intros w r w' [= <- <-]. Qed.

Lemma keeps_fs_set_self (f : CodeGenerator -> CodeGenerator) :
  keeps_fs (set_self f).
Proof. by intros w r w' [= <- <-]. Qed.

Lemma keeps_fs_true_divide (a b : Z) : keeps_fs (true_divide a b).
Proof.
  intros w r w'. unfold true_divide.
  repeat case_match; by intros [= <- <-].
Qed.

Lemma keeps_fs_generate_loop (fuel : nat) (k : Z) :
  keeps_fs (generate_loop fuel k).
Proof. intros w r w'. apply generate_loop_fs. Qed.

#[local] Hint Resolve keeps_fs_ret keeps_fs_raise keeps_fs_out_of_fuel
  keeps_fs_get_self keeps_fs_set_self keeps_fs_true_divide
  keeps_fs_generate_loop : keeps_fs.

(** Goes through a computation built from the pieces above. *)
Ltac keeps_fs :=
  repeat match goal with
    | |- keeps_fs (_ ≫= _) => apply keeps_fs_bind
    | |- keeps_fs (try_except _ _) => apply keeps_fs_try
    | |- keeps_fs (match ?x with _ => _ end) => destruct x eqn:?
    | |- keeps_fs _ => solve [auto with keeps_fs]
    | |- forall _, _ => intro
    | H : Some _ = Some _ |- _ => inversion H; subst; clear H
    | H : None = Some _ |- _ => discriminate H
    | H : match ?e with _ => _ end = Some _ |- _ => destruct e
    end.





Lemma keeps_fs_generate_codes (fuel : nat) : keeps_fs (generate_codes fuel).
Proof. unfold generate_codes, check_probability. keeps_fs. Qed.

(** A file is written, or it cannot be opened and that is reported as the
    I/O error. *)
Lemma save_file_outcome (g : CodeGenerator) (codes : list string) (k i : Z)
    (w w' : World) (r : result unit) :
  save_file g codes k i w = (r, w') ->
  r = Ok tt \/ r = Raise (ValueError CouldNotWrite).
Proof.
  destruct (decide (file_path g k i ∈ locked (fs w))) as [Hin|Hout].
  - unfold save_file, try_except. rewrite run_bind.
    unfold open_w. rewrite bool_decide_eq_true_2 by done. simpl.
    intros [= <- <-]. by right.
  - rewrite run_save_file by done. intros [= <- <-]. by left.
Qed.

Lemma save_files_raise (g : CodeGenerator) (codes : list string) (k : Z)
    (idx : list Z) (w w' : World) (e : exn) :
  for_each idx (save_file g codes k) w = (Raise e, w') ->
  e = ValueError CouldNotWrite.
Proof.
  revert w. induction idx as [|i idx IH]; intros w; simpl; [done|].
  rewrite run_bind.
  destruct (save_file g codes k i w) as [r w1] eqn:E.
  apply save_file_outcome in E as [-> | ->].
  - apply IH.
  - by intros [= <-].
Qed.

(** The writer raises nothing but the division by a zero [maxlines] and
    the I/O error. *)
Lemma save_codes_raise (w w' : World) (e : exn) :
  save_codes w = (Raise e, w') ->
  e = ZeroDivisionError \/ e = ValueError CouldNotWrite.
Proof.
  unfold save_codes. rewrite run_bind. simpl. rewrite run_bind. simpl.
  rewrite run_bind.
  destruct (path_exists _ _); simpl; rewrite run_bind; unfold floor_div;
    simpl; (destruct (maxlines (self w) =? 0); simpl;
            [intros [= <-]; by left | intros ->%save_files_raise; by right]).
Qed.




(** ** The end-to-end examples of the specification *)

(** Ten codes of four digits, five per file, with the draws that spell
    0, 1, 2, ...: two files of five rows, ten different codes. *)
Example main_ten_codes :
  let r := main ten_codes_args "" "" 10 (world_of (counting_draws 10 4 0)) in
  r.1 = Ok CodesSaved
  /\ map_to_list (files (fs r.2))
     = [("codes/codes_1.csv",
         [["7000"]; ["3000"]; ["5000"]; ["9000"]; ["1000"]]);
        ("codes/codes_2.csv",
         [["6000"]; ["2000"]; ["4000"]; ["8000"]; ["0000"]])]
  /\ elements (dirs (fs r.2)) = ["codes"].
Proof. vm_compute. done. Qed.

(** 100000 codes of one digit: the capacity error is printed and the disk
    is untouched. *)
Example main_too_many :
  main too_many_args "" "" 0 (world_of (fun _ => O))
  = (Ok (ErrorPrinted (CannotGenerate 100000 1 10)),
     mkWorld (mkCodeGenerator 100000 1 "0123456789" ∅ "utf-8" None None
                "codes" ".csv" 100000 "codes")
       empty_fs (fun _ => O) 0 []).
Proof. vm_compute. reflexivity. Qed.

(** Three codes, two per file. *)
Example save_three_codes :
  let r := save_codes three_codes_end in
  r.1 = Ok tt
  /\ map_to_list (files (fs r.2))
     = [("codes/out_1.csv", [["X-41"]; ["X-85"]]);
        ("codes/out_2.csv", [["X-07"]])].
Proof. vm_compute. done. Qed.


(** * Further properties of the code *)

(** ** The character checks of the builder *)

Lemma is_printable_code (c : ascii) :
  is_printable c = true <-> printable_code c.
Proof.
  assert (is_printable c
          = ((9 <=? code_of c) && (code_of c <=? 13)
             || (32 <=? code_of c) && (code_of c <=? 126))) as ->
    by (by destruct c as [[] [] [] [] [] [] [] []]).
  unfold printable_code.
  rewrite orb_true_iff, !andb_true_iff, !Z.leb_le. done.
Qed.

(** X1: the characters an error message of the builder lists are the
    characters of the string whose code is neither 9 to 13 nor 32 to 126,
    in their order; the string passes when there is none. *)
Theorem invalid_chars_codes (s : string) :
  invalid_chars s = filter (fun c => ~ printable_code c) (chars s).
Proof.
  unfold invalid_chars. apply filter_bool_prop. intros c.
  rewrite negb_true_iff, <- not_true_iff_false, is_printable_code. done.
Qed.

Lemma base_set_printable (charset_name alphaSet : string)
    (custom : option string) (B : string) :
  alphaSet = PyString.ascii_lowercase \/ alphaSet = PyString.ascii_letters
  \/ alphaSet = PyString.ascii_uppercase ->
  base_set charset_name alphaSet custom B -> printable_str B.
Proof.
  intros Ha HB. destruct HB; [..|done]; apply invalid_chars_nil;
    try (destruct Ha as [-> | [-> | ->]]); reflexivity.
Qed.

(** X2: a successful build changes nothing but the [charset] attribute,
    and leaves it non-empty and made of printable characters only. *)
Theorem build_character_set_postcondition
    (charset_name case : string) (omit add custom : option string)
    (w w' : World) :
  build_character_set charset_name case omit add custom w = (Ok tt, w') ->
  w' = world_with_charset (charset (self w')) w
  /\ charset (self w') ≠ ""
  /\ printable_str (charset (self w')).
Proof.
  intros (alphaSet & B & Ha & Hb & HB & Ho & Hd & -> & Hne)
    %build_character_set_ok_inv.
  apply select_alpha_ok in Ha as [_ Ha].
  pose proof (base_set_printable _ _ _ _ Ha HB) as HBp.
  simpl. split_and!.
  - done.
  - intros Hnil%(f_equal chars). rewrite chars_of_chars in Hnil. done.
  - unfold printable_str. rewrite chars_of_chars. apply Forall_app. split.
    + apply Forall_forall. intros c [_ Hc]%list_elem_of_filter.
      unfold printable_str in HBp. rewrite Forall_forall in HBp. by apply HBp.
    + done.
Qed.

(** The digits without "0", with "ab" added. *)
Lemma build_character_set_postcondition_witness :
  world_with_charset "123456789ab" (world_of (fun _ => O))
  = world_with_charset "123456789ab" (world_of (fun _ => O))
  /\ "123456789ab" ≠ ""
  /\ printable_str "123456789ab".
Proof.
  apply (build_character_set_postcondition "numeric" "lower" (Some "0")
           (Some "ab") None (world_of (fun _ => O))
           (world_with_charset "123456789ab" (world_of (fun _ => O)))).
  reflexivity.
Defined.

Lemma select_alpha_valid (case : string) (w : World) :
  valid_case case -> exists alphaSet, select_alpha case w = (Ok alphaSet, w).
Proof. intros [-> | [-> | ->]]; by eexists. Qed.

Lemma select_base_ignores_alpha (charset_name a1 a2 : string)
    (custom : option string) (w : World) :
  charset_name ≠ "alpha" -> charset_name ≠ "alphanumeric" ->
  select_base charset_name a1 custom w = select_base charset_name a2 custom w.
Proof.
  intros H1%String.eqb_neq H2%String.eqb_neq. unfold select_base.
  by rewrite H1, H2.
Qed.

(** X3: the case option only matters for the charsets "alpha" and
    "alphanumeric": with any other charset name, two valid cases give the
    same result, alphabet or error. *)
Theorem build_character_set_case_unused
    (charset_name case1 case2 : string) (omit add custom : option string)
    (w : World) :
  valid_case case1 -> valid_case case2 ->
  charset_name ≠ "alpha" -> charset_name ≠ "alphanumeric" ->
  build_character_set charset_name case1 omit add custom w
  = build_character_set charset_name case2 omit add custom w.
Proof.
  intros [a1 H1]%(select_alpha_valid _ w) [a2 H2]%(select_alpha_valid _ w)
    Hn1 Hn2.
  unfold build_character_set. rewrite !run_bind, H1, H2, !run_bind.
  by rewrite (select_base_ignores_alpha charset_name a1 a2).
Qed.

(** The recommended set, with "lower" and with "upper". *)
Lemma build_character_set_case_unused_witness :
  build_character_set "recommended" "lower" None None None
    (world_of (fun _ => O))
  = build_character_set "recommended" "upper" None None None
      (world_of (fun _ => O)).
Proof.
  apply (build_character_set_case_unused "recommended" "lower" "upper").
  - by left.
  - by right; right.
  - discriminate.
  - discriminate.
Defined.

(** X4: when the add string holds a character that is not printable, the
    builder raises with the offending characters, and the steps before are
    not undone: [charset] is left as the base set without the omitted
    characters. *)
Theorem build_character_set_bad_add
    (charset_name case : string) (omit custom : option string) (a : string)
    (alphaSet B : string) (w : World) :
  select_alpha case w = (Ok alphaSet, w) ->
  select_base charset_name alphaSet custom w = (Ok tt, world_with_charset B w) ->
  printable_str (default "" omit) ->
  ~ printable_str a ->
  build_character_set charset_name case omit (Some a) custom w
  = (Raise (ValueError (AddInvalidChars (invalid_chars a))),
     world_with_charset
       (of_chars (filter (fun c => c ∉ chars (default "" omit)) (chars B))) w).
Proof.
  intros Ha Hb Ho Hbad. unfold build_character_set.
  rewrite run_bind, Ha, run_bind, Hb, run_bind, run_apply_omit by done.
  rewrite run_bind. unfold apply_add.
  destruct (invalid_chars a) as [|c l] eqn:E; [|done].
  by apply invalid_chars_nil in E.
Qed.

(** The digits without "0"; the add string holds the character 0. *)
Lemma build_character_set_bad_add_witness :
  build_character_set "numeric" "upper" (Some "0")
    (Some (String "000"%char "x")) None (world_of (fun _ => O))
  = (Raise (ValueError (AddInvalidChars ["000"%char])),
     world_with_charset "123456789" (world_of (fun _ => O))).
Proof.
  apply (build_character_set_bad_add "numeric" "upper" (Some "0") None
           (String "000"%char "x") PyString.ascii_uppercase PyString.digits).
  - reflexivity.
  - reflexivity.
  - apply invalid_chars_nil. reflexivity.
  - intros H%invalid_chars_nil. discriminate H.
Defined.

(** ** The constructor on numerals *)


(** ** [build_file] *)

Lemma rfind_from_spec (c : ascii) (l : list ascii) (i last : Z) :
  rfind_from c l i last = last
  \/ (i <= rfind_from c l i last < i + Z.of_nat (length l)
      /\ l !! Z.to_nat (rfind_from c l i last - i) = Some c).
Proof.
  revert i last. induction l as [|x l IH]; intros i last; simpl; [by left|].
  destruct (IH (i + 1) (if Ascii.eqb x c then i else last)) as [Heq | [Hr Hl]].
  - rewrite Heq. destruct (Ascii.eqb_spec x c) as [->|]; [|by left].
    right. split; [lia|]. by rewrite Z.sub_diag.
  - right. split; [lia|].
    replace (Z.to_nat (rfind_from c l (i + 1)
                         (if Ascii.eqb x c then i else last) - i))
      with (S (Z.to_nat (rfind_from c l (i + 1)
                           (if Ascii.eqb x c then i else last) - (i + 1))))
      by lia.
    done.
Qed.

Lemma rfind_spec (c : ascii) (l : list ascii) :
  rfind c l = -1
  \/ (0 <= rfind c l < Z.of_nat (length l)
      /\ l !! Z.to_nat (rfind c l) = Some c).
Proof.
  unfold rfind. destruct (rfind_from_spec c l 0 (-1)) as [H | [H1 H2]];
    [by left|right].
  split; [lia|]. by rewrite Z.sub_0_r in H2.
Qed.

Lemma slice_prefix {A} (l : list A) (d : Z) :
  0 <= d <= Z.of_nat (length l) -> slice l 0 d = take (Z.to_nat d) l.
Proof.
  intros Hd. unfold slice, clamp_index.
  destruct (Z.ltb_spec 0 0); [lia|]. destruct (Z.ltb_spec d 0); [lia|].
  rewrite Z.min_l, Z.min_l by lia. simpl. f_equal. lia.
Qed.

Lemma slice_suffix {A} (l : list A) (d : Z) :
  0 <= d <= Z.of_nat (length l) ->
  slice l d (Z.of_nat (length l)) = drop (Z.to_nat d) l.
Proof.
  intros Hd. unfold slice, clamp_index.
  destruct (Z.ltb_spec d 0); [lia|].
  destruct (Z.ltb_spec (Z.of_nat (length l)) 0); [lia|].
  rewrite Z.min_l, Z.min_l by lia. apply take_ge. rewrite length_drop. lia.
Qed.

(** [splitext] cuts the name in two parts that give it back, and the
    second part is empty or starts with the dot. *)
Lemma splitext_spec (p : string) :
  (splitext p).1 +:+ (splitext p).2 = p
  /\ ((splitext p).2 = ""
      \/ exists rest, (splitext p).2 = String "."%char rest).
Proof.
  unfold splitext.
  destruct (_ && _) eqn:Hcut; simpl.
  2:{ split; [|by left]. apply chars_inj. by rewrite chars_app, app_nil_r. }
  apply andb_true_iff in Hcut as [Hlt%Z.ltb_lt _].
  destruct (rfind_spec "/" (chars p)) as [Hs | [Hs _]],
           (rfind_spec "." (chars p)) as [Hd | [Hd Hdot]]; try lia.
  - rewrite slice_prefix, slice_suffix by lia. split.
    + apply chars_inj. by rewrite chars_app, !chars_of_chars, take_drop.
    + right. apply list_elem_of_split_length in Hdot
        as (l1 & l2 & Hl & Hlen).
      exists (of_chars l2). rewrite Hlen, Hl, drop_app_length. done.
  - rewrite slice_prefix, slice_suffix by lia. split.
    + apply chars_inj. by rewrite chars_app, !chars_of_chars, take_drop.
    + right. apply list_elem_of_split_length in Hdot
        as (l1 & l2 & Hl & Hlen).
      exists (of_chars l2). rewrite Hlen, Hl, drop_app_length. done.
Qed.

(** X6: [build_file] with [maxlines] an integer, or unspecified and then
    the number of codes.  The name is kept: the base and the extension
    stored give the file name back, or the file name had no extension and
    ".csv" is stored; the extension stored starts with a dot.  The call
    succeeds exactly when [maxlines] is at least 1 and then stores the
    encoding and the directory too; below 1 it raises after the name and
    [maxlines] were stored.  Nothing else changes. *)
Theorem build_file_outcome (filename : string) (maxlines_arg : option pyval)
    (enc dir : string) (w : World) (m : Z) :
  (maxlines_arg = None /\ m = codes_count (self w))
  \/ maxlines_arg = Some (PyInt m) ->
  exists base ext : string,
    (base +:+ ext = filename \/ (base = filename /\ ext = ".csv"))
    /\ (exists rest, ext = String "."%char rest)
    /\ build_file filename maxlines_arg enc dir w
       = let g := self w in
         if 1 <=? m
         then (Ok tt,
               world_with_self
                 (mkCodeGenerator (codes_count g) (codes_length g) (charset g)
                    (codes_set g) enc (prefix g) (suffix g) base ext m dir) w)
         else (Raise (ValueError MaxlinesTooSmall),
               world_with_self
                 (mkCodeGenerator (codes_count g) (codes_length g) (charset g)
                    (codes_set g) (encoding g) (prefix g) (suffix g) base ext m
                    (save_directory g)) w).
Proof.
  intros Hm. destruct (splitext_spec filename) as [Hcat Hext].
  unfold build_file. destruct (splitext filename) as [b e]. simpl in *.
  exists b, (if String.eqb e "" then ".csv" else e). split_and!.
  - destruct (String.eqb_spec e "") as [->|]; [right|by left].
    split; [|done]. rewrite <- Hcat. apply chars_inj.
    by rewrite chars_app, app_nil_r.
  - destruct Hext as [-> | [rest ->]]; by eexists.
  - rewrite run_bind. simpl. rewrite run_bind.
    destruct Hm as [[-> ->] | ->]; simpl; rewrite run_bind; simpl;
      (destruct (Z.ltb_spec m 1), (Z.leb_spec 1 m); try lia; done) ||
      (destruct (Z.ltb_spec (codes_count (self w)) 1),
                (Z.leb_spec 1 (codes_count (self w))); try lia; done).
Qed.

(** "codes.csv" with two rows per file, on the object set up for three
    codes. *)
Lemma build_file_outcome_witness :
  exists base ext : string,
    (base +:+ ext = "codes.csv" \/ (base = "codes.csv" /\ ext = ".csv"))
    /\ (exists rest, ext = String "."%char rest)
    /\ build_file "codes.csv" (Some (PyInt 2)) "utf-8" "codes" three_codes_start
       = (Ok tt,
          world_with_self
            (mkCodeGenerator 3 2 "0123456789" ∅ "utf-8" (Some "X-") None
               base ext 2 "codes") three_codes_start).
Proof.
  apply (build_file_outcome "codes.csv" (Some (PyInt 2)) "utf-8" "codes"
           three_codes_start 2).
  by right.
Defined.

(** ** What the sampling loop does to the world *)

Lemma random_chars_world (n : nat) (s : string) (w w' : World)
    (r : result (list ascii)) :
  random_chars n s w = (r, w') ->
  self w' = self w /\ fs w' = fs w /\ entropy w' = entropy w
  /\ progress w' = progress w /\ (drawn w <= drawn w')%nat
  /\ ((exists core, r = Ok core) \/ (r = Raise IndexError /\ s = "")).
Proof.
  destruct (decide (chars s = [])) as [Hnil|Hne].
  - apply chars_nil in Hnil as ->. destruct n as [|n]; simpl.
    + intros [= <- <-]. split_and!; try done. left. by eexists.
    + rewrite run_bind. simpl. intros [= <- <-]. split_and!; try done.
      by right.
  - rewrite run_random_chars by done. intros [= <- <-]. simpl.
    split_and!; try done; [lia|]. left. by eexists.
Qed.

Lemma loop_adds_nothing (k : Z) (w w' : World) (r : result unit) :
  self w' = self w -> fs w' = fs w -> entropy w' = entropy w ->
  progress w' = progress w -> (drawn w <= drawn w')%nat ->
  (r = Ok tt -> codes_count (self w) <= k) ->
  (r = Ok tt \/ r = Timeout
   \/ (r = Raise IndexError /\ charset (self w) = "")) ->
  exists new : list string,
    self w' = with_codes_set (list_to_set new ∪ codes_set (self w)) (self w)
    /\ NoDup new
    /\ (forall code, code ∈ new -> code ∉ codes_set (self w))
    /\ progress w'
       = progress w
         ++ ((fun i => (i, codes_count (self w)))
               <$> seqZ (k + 1) (Z.of_nat (length new)))
    /\ fs w' = fs w /\ entropy w' = entropy w /\ (drawn w <= drawn w')%nat
    /\ (r = Ok tt -> k <= codes_count (self w) ->
        Z.of_nat (length new) = codes_count (self w) - k)
    /\ (r = Ok tt \/ r = Timeout
        \/ (r = Raise IndexError /\ charset (self w) = "")).
Proof.
  intros Hs Hf He Hp Hd Hk Hr. exists []. split_and!; try done.
  - rewrite Hs. destruct (self w). unfold with_codes_set. simpl. f_equal.
    by rewrite (left_id_L ∅ (∪)).
  - constructor.
  - by intros code ?%elem_of_nil.
  - simpl. by rewrite app_nil_r.
  - intros Hok Hle. specialize (Hk Hok). simpl. lia.
Qed.

(** Whatever the loop's outcome: the codes it added are new and pairwise
    different, every one of them was followed by one progress line, and the
    rest of the world is as before, but for the draws consumed. *)
Lemma generate_loop_any (fuel : nat) (k : Z) (w w' : World) (r : result unit) :
  generate_loop fuel k w = (r, w') ->
  exists new : list string,
    self w' = with_codes_set (list_to_set new ∪ codes_set (self w)) (self w)
    /\ NoDup new
    /\ (forall code, code ∈ new -> code ∉ codes_set (self w))
    /\ progress w'
       = progress w
         ++ ((fun i => (i, codes_count (self w)))
               <$> seqZ (k + 1) (Z.of_nat (length new)))
    /\ fs w' = fs w /\ entropy w' = entropy w /\ (drawn w <= drawn w')%nat
    /\ (r = Ok tt -> k <= codes_count (self w) ->
        Z.of_nat (length new) = codes_count (self w) - k)
    /\ (r = Ok tt \/ r = Timeout
        \/ (r = Raise IndexError /\ charset (self w) = "")).
Proof.
  revert k w w' r. induction fuel as [|fuel IH]; intros k w w' r; simpl;
    rewrite run_bind; simpl.
  - destruct (Z.ltb_spec k (codes_count (self w))); intros [= <- <-];
      apply loop_adds_nothing; auto; done.
  - destruct (Z.ltb_spec k (codes_count (self w)));
      [|intros [= <- <-]; apply loop_adds_nothing; auto; done].
    rewrite run_bind.
    destruct (random_chars _ _ w) as [rc wc] eqn:Hc.
    apply random_chars_world in Hc
      as (Hs & Hf & He & Hp & Hd & [[core ->] | [-> Hnil]]);
      [|intros [= <- <-]; apply loop_adds_nothing; auto; done].
    set (code := decorate (prefix (self w)) (suffix (self w)) (of_chars core)).
    case_bool_decide as Hin.
    + intros Hloop. apply IH in Hloop
        as (new & Hself & Hnd & Hfresh & Hprog & Hfs & Hent & Hdr & Hn & Hr).
      rewrite Hs in *. exists new.
      split_and!; try done; try congruence; try lia.
    + rewrite run_bind. simpl. rewrite run_bind. simpl.
      intros Hloop. apply IH in Hloop
        as (new & Hself & Hnd & Hfresh & Hprog & Hfs & Hent & Hdr & Hn & Hr).
      simpl in *. rewrite Hs in *. simpl in *.
      exists (code :: new). split_and!.
      * rewrite Hself. unfold with_codes_set. simpl. f_equal.
        apply set_eq. intros x. rewrite !elem_of_union. tauto.
      * apply NoDup_cons. split; [|done]. intros Hc'.
        apply Hfresh in Hc'. apply Hc'.
        apply elem_of_union. left. by apply elem_of_singleton.
      * intros x [->|Hx]%elem_of_cons; [done|].
        apply Hfresh in Hx. intros Hx'. apply Hx.
        apply elem_of_union. by right.
      * rewrite Hprog, Hp, <- app_assoc. f_equal. simpl length.
        rewrite (seqZ_cons (k + 1)) by lia. simpl. f_equal.
        replace (Z.succ (k + 1)) with (k + 1 + 1) by lia.
        replace (Z.pred (Z.of_nat (S (length new))))
          with (Z.of_nat (length new)) by lia.
        done.
      * congruence.
      * congruence.
      * lia.
      * intros Hok Hk. specialize (Hn Hok). simpl length. lia.
      * done.
Qed.

Lemma true_divide_outcome (a b : Z) (w w' : World) (r : result pyfloat) :
  true_divide a b w = (r, w') ->
  w' = w
  /\ ((exists f, r = Ok f) \/ r = Raise ZeroDivisionError
      \/ r = Raise OverflowError).
Proof.
  unfold true_divide, float_div_pos.
  repeat case_match; intros [= <- <-]; simplify_eq; eauto.
Qed.

(** The generator stops in the capacity check with the world as it was, or
    goes through the sampling loop. *)
Lemma generate_codes_any (fuel : nat) (w w' : World) (r : result unit) :
  generate_codes fuel w = (r, w') ->
  (w' = w
   /\ (r = Raise ZeroDivisionError \/ r = Raise OverflowError
       \/ r = Raise (ValueError (CannotGenerate (codes_count (self w))
                                   (codes_length (self w))
                                   (len (charset (self w)))))))
  \/ generate_loop fuel 0 w = (r, w').
Proof.
  unfold generate_codes, check_probability. rewrite run_bind, run_bind. simpl.
  destruct (true_divide _ _ w) as [rp wp] eqn:Hp.
  apply true_divide_outcome in Hp as [-> [[f ->] | [-> | ->]]].
  - destruct (float_gt_one f); [|by right].
    rewrite run_bind. simpl. intros [= <- <-]. left. auto.
  - intros [= <- <-]. left. auto.
  - intros [= <- <-]. left. auto.
Qed.

(** X7: whatever the outcome of a generation (completed, out of
    iterations, or refused), no code is removed from the set, no other
    attribute of the object changes, nothing changes on disk, and the
    random source is only read forward. *)
Theorem generate_codes_never_shrinks (fuel : nat) (w w' : World)
    (r : result unit) :
  generate_codes fuel w = (r, w') ->
  codes_set (self w) ⊆ codes_set (self w')
  /\ self w' = with_codes_set (codes_set (self w')) (self w)
  /\ fs w' = fs w /\ entropy w' = entropy w /\ (drawn w <= drawn w')%nat.
Proof.
  intros [[-> _] | Hloop]%generate_codes_any.
  - split_and!; try done. by destruct (self w).
  - apply generate_loop_any in Hloop
      as (new & Hself & _ & _ & _ & Hfs & Hent & Hdr & _).
    rewrite Hself. simpl. split_and!; try done.
    apply union_subseteq_r.
Qed.

(** Out of iterations after the first of the three codes. *)
Lemma generate_codes_never_shrinks_witness :
  let w' := (generate_codes 1 three_codes_start).2 in
  codes_set (self three_codes_start) ⊆ codes_set (self w')
  /\ self w' = with_codes_set (codes_set (self w')) (self three_codes_start)
  /\ fs w' = fs three_codes_start /\ entropy w' = entropy three_codes_start
  /\ (drawn three_codes_start <= drawn w')%nat.
Proof.
  apply (generate_codes_never_shrinks 1 three_codes_start _
           (generate_codes 1 three_codes_start).1).
  by destruct (generate_codes 1 three_codes_start).
Defined.

(** X8: a completed generation adds exactly [codes_count] codes to the
    codes the object already held: generating twice on one object leaves
    twice as many codes. *)
Theorem generate_codes_adds_count (fuel : nat) (w w' : World) :
  0 <= codes_count (self w) ->
  generate_codes fuel w = (Ok tt, w') ->
  Z.of_nat (size (codes_set (self w')))
  = Z.of_nat (size (codes_set (self w))) + codes_count (self w).
Proof.
  intros Hc [[_ [? | [? | ?]]] | Hloop]%generate_codes_any; try done.
  apply generate_loop_any in Hloop
    as (new & Hself & Hnd & Hfresh & _ & _ & _ & _ & Hn & _).
  rewrite Hself. simpl. rewrite size_union.
  - rewrite size_list_to_set by done. specialize (Hn eq_refl Hc). lia.
  - intros code Hin%elem_of_list_to_set. by apply Hfresh.
Qed.

(** Three more codes on the object that holds three. *)
Lemma generate_codes_adds_count_witness :
  Z.of_nat (size (codes_set (self (generate_codes 3 three_codes_again).2)))
  = Z.of_nat (size (codes_set (self three_codes_again)))
    + codes_count (self three_codes_again).
Proof.
  apply (generate_codes_adds_count 3 three_codes_again).
  - vm_compute. discriminate.
  - vm_compute. reflexivity.
Defined.



(** X10: on an object whose charset was never built, with codes of at
    least one character, [run] stops in the capacity check with a
    ZeroDivisionError: nothing is drawn, generated or written. *)
Theorem run_without_charset (fuel : nat) (w : World) :
  charset (self w) = "" -> 1 <= codes_length (self w) ->
  run fuel w = (Raise ZeroDivisionError, w).
Proof.
  intros Hempty HL. unfold run, generate_codes, check_probability.
  rewrite !run_bind. simpl. rewrite Hempty. unfold int_pow. simpl len.
  change (len "") with 0. rewrite Z.pow_0_l by lia. done.
Qed.

(** Right after the constructor. *)
Lemma run_without_charset_witness :
  run 5 (mkWorld (mkCodeGenerator 3 2 "" ∅ "" None None "" "" 0 "")
           empty_fs (fun _ => O) 0 [])
  = (Raise ZeroDivisionError,
     mkWorld (mkCodeGenerator 3 2 "" ∅ "" None None "" "" 0 "")
       empty_fs (fun _ => O) 0 []).
Proof.
  apply (run_without_charset 5
           (mkWorld (mkCodeGenerator 3 2 "" ∅ "" None None "" "" 0 "")
              empty_fs (fun _ => O) 0 [])).
  - reflexivity.
  - simpl. lia.
Defined.

(** X11: a request within the capacity passes the check, whatever the
    sizes: the generator raises neither the capacity error nor a division
    by zero, and the sampling never meets an empty charset. *)
Theorem generate_codes_within_capacity_outcome (fuel : nat) (w w' : World)
    (r : result unit) :
  1 <= codes_length (self w) -> 1 <= codes_count (self w) ->
  codes_count (self w) <= len (charset (self w)) ^ codes_length (self w) ->
  generate_codes fuel w = (r, w') ->
  (forall c l n, r ≠ Raise (ValueError (CannotGenerate c l n)))
  /\ r ≠ Raise ZeroDivisionError /\ r ≠ Raise IndexError.
Proof.
  intros HL Hc Hcap. rewrite generate_codes_within_capacity by done.
  intros (new & _ & _ & _ & _ & _ & _ & _ & _ & [-> | [-> | [_ Hnil]]])
    %generate_loop_any; [done..|].
  rewrite Hnil in Hcap. change (len "") with 0 in Hcap.
  rewrite Z.pow_0_l in Hcap by lia. lia.
Qed.

(** The three codes with one iteration only. *)
Lemma generate_codes_within_capacity_outcome_witness :
  (forall c l n,
     (generate_codes 1 three_codes_start).1
     ≠ Raise (ValueError (CannotGenerate c l n)))
  /\ (generate_codes 1 three_codes_start).1 ≠ Raise ZeroDivisionError
  /\ (generate_codes 1 three_codes_start).1 ≠ Raise IndexError.
Proof.
  apply (generate_codes_within_capacity_outcome 1 three_codes_start
           (generate_codes 1 three_codes_start).2).
  - vm_compute. discriminate.
  - vm_compute. discriminate.
  - vm_compute. discriminate.
  - by destruct (generate_codes 1 three_codes_start).
Defined.

(** X12: with fewer than [2^53] possible codes, [run] refuses a larger
    count (below [2^1000]) with the capacity error and leaves the world
    untouched: no draw, no code, no directory, no file. *)
Theorem run_over_capacity (fuel : nat) (w : World) :
  let g := self w in
  let combinations := len (charset g) ^ codes_length g in
  1 <= combinations -> combinations < 2 ^ 53 ->
  combinations < codes_count g -> codes_count g < 2 ^ 1000 ->
  run fuel w
  = (Raise (ValueError (CannotGenerate (codes_count g) (codes_length g)
                          (len (charset g)))), w).
Proof.
  intros g combinations H1 H2 H3 H4. unfold run. rewrite run_bind.
  by rewrite (generate_codes_over_capacity_error w fuel H1 H2 H3 H4).
Qed.

(** 100000 codes of one digit. *)
Lemma run_over_capacity_witness :
  run 0 (mkWorld (mkCodeGenerator 100000 1 "0123456789" ∅ "" None None
                    "" "" 1 "") empty_fs (fun _ => O) 0 [])
  = (Raise (ValueError (CannotGenerate 100000 1 10)),
     mkWorld (mkCodeGenerator 100000 1 "0123456789" ∅ "" None None
                "" "" 1 "") empty_fs (fun _ => O) 0 []).
Proof.
  apply (run_over_capacity 0
           (mkWorld (mkCodeGenerator 100000 1 "0123456789" ∅ "" None None
                       "" "" 1 "") empty_fs (fun _ => O) 0 [])).
  - vm_compute. discriminate.
  - vm_compute. reflexivity.
  - vm_compute. reflexivity.
  - vm_compute. reflexivity.
Defined.

(** ** The writer when a file cannot be opened *)

(** The files are written in order up to the first one that cannot be
    opened. *)
Lemma run_save_files_seq (g : CodeGenerator) (codes : list string) (k : Z)
    (n : nat) (a : Z) (w w' : World) (r : result unit) :
  for_each (seqZ a (Z.of_nat n)) (save_file g codes k) w = (r, w') ->
  exists j : nat,
    (j <= n)%nat
    /\ w' = world_with_fs
              (foldl (fun f i => write_file (file_path g k i)
                                   (split <$> file_codes g codes i) f)
                 (fs w) (seqZ a (Z.of_nat j))) w
    /\ (forall i, a <= i < a + Z.of_nat j -> file_path g k i ∉ locked (fs w))
    /\ ((r = Ok tt /\ j = n)
        \/ (r = Raise (ValueError CouldNotWrite) /\ (j < n)%nat
            /\ file_path g k (a + Z.of_nat j) ∈ locked (fs w))).
Proof.
  revert a w. induction n as [|n IH]; intros a w.
  - simpl. intros [= <- <-]. exists 0%nat. split_and!; [done| |lia|by left].
    by destruct w.
  - rewrite seqZ_cons by lia. simpl for_each. rewrite run_bind.
    replace (Z.pred (Z.of_nat (S n))) with (Z.of_nat n) by lia.
    destruct (decide (file_path g k a ∈ locked (fs w))) as [Hin|Hout].
    + unfold save_file at 1, try_except. rewrite run_bind.
      unfold open_w. rewrite bool_decide_eq_true_2 by done. simpl.
      intros [= <- <-]. exists 0%nat. split_and!; [lia| |lia|right].
      * by destruct w.
      * rewrite Z.add_0_r. split_and!; [done|lia|done].
    + rewrite run_save_file by done. intros Hrest.
      apply IH in Hrest as (j & Hj & -> & Hfree & Hr). simpl in *.
      exists (S j). split_and!.
      * lia.
      * rewrite (seqZ_cons a) by lia.
        replace (Z.pred (Z.of_nat (S j))) with (Z.of_nat j) by lia. done.
      * intros i Hi. destruct (decide (i = a)) as [->|]; [done|].
        apply Hfree. lia.
      * destruct Hr as [[-> ->] | (-> & Hlt & Hlock)]; [by left|right].
        split_and!; [done|lia|].
        by replace (a + Z.of_nat (S j)) with (Z.succ a + Z.of_nat j) by lia.
Qed.



(** ** Codes without white space *)

Lemma split_from_concat (cur l : list ascii) :
  Forall (fun c => py_isspace c = false) cur ->
  Forall (fun field => field ≠ "") (split_from cur l)
  /\ concat (chars <$> split_from cur l)
     = rev cur ++ filter (fun c => py_isspace c = false) l.
Proof.
  assert (forall cur0, Forall (fun field => field ≠ "") (flush_word cur0)
                       /\ concat (chars <$> flush_word cur0) = rev cur0)
    as Hflush.
  { intros [|c0 cur0]; [done|]. unfold flush_word. split.
    - constructor; [|done]. intros Hnil%(f_equal chars).
      rewrite chars_of_chars in Hnil.
      apply (f_equal (@length _)) in Hnil. rewrite length_rev in Hnil. done.
    - simpl concat. by rewrite chars_of_chars, app_nil_r. }
  revert cur. induction l as [|c l IH]; intros cur Hcur; simpl.
  - destruct (Hflush cur) as [H1 H2]. by rewrite H2, app_nil_r.
  - destruct (py_isspace c) eqn:Hc.
    + destruct (Hflush cur) as [H1 H2].
      destruct (IH [] ltac:(constructor)) as [H3 H4].
      rewrite filter_cons_False by congruence. split.
      * by apply Forall_app.
      * by rewrite fmap_app, concat_app, H2, H4.
    + destruct (IH (c :: cur) ltac:(by constructor)) as [H3 H4].
      rewrite filter_cons_True by done. split; [done|].
      rewrite H4. simpl. by rewrite <- app_assoc.
Qed.

(** X16: the fields of the row written for a code are never empty and
    hold no white space, and put together they are the code without its
    white space: white space in a code is lost, and only its position
    between two fields is kept. *)
Theorem split_fields (code : string) :
  Forall solid (split code)
  /\ concat (chars <$> split code)
     = filter (fun c => py_isspace c = false) (chars code).
Proof.
  unfold split.
  destruct (split_from_concat [] (chars code) ltac:(constructor)) as [H1 H2].
  split; [|done]. apply Forall_forall. intros field Hin. split.
  - rewrite Forall_forall in H1. by apply H1.
  - by apply (split_from_fields [] (chars code)); [constructor|].
Qed.



(** ** A run that completes *)



(** ** The stages of [main] *)

Lemma init_strings_outcome (a b : string) (p s : option string) (w w' : World)
    (r : result unit) :
  init (PyStr a) (PyStr b) p s w = (r, w') ->
  (exists c l,
     parse_int a = Some c /\ parse_int b = Some l /\ 1 <= c /\ 1 <= l
     /\ r = Ok tt
     /\ w' = world_with_self (mkCodeGenerator c l "" ∅ "" p s "" "" 0 "") w)
  \/ (exists m, r = Raise (ValueError m) /\ w' = w).
Proof.
  unfold init, try_except. rewrite run_bind, run_bind. simpl.
  destruct (parse_int a) as [c|]; simpl;
    [|intros [= <- <-]; right; by eexists].
  destruct (parse_int b) as [l|]; simpl;
    [|intros [= <- <-]; right; by eexists].
  destruct (Z.ltb_spec c 1); [intros [= <- <-]; right; by eexists|].
  destruct (Z.ltb_spec l 1); [intros [= <- <-]; right; by eexists|].
  intros [= <- <-]. left. exists c, l. split_and!; done.
Qed.

Lemma build_file_int_outcome (filename : string) (mz : option Z)
    (enc dir : string) (w w' : World) (r : result unit) :
  build_file filename (PyInt <$> mz) enc dir w = (r, w') ->
  let g := self w in
  let m := default (codes_count g) mz in
  let ext := if String.eqb (splitext filename).2 "" then ".csv"
             else (splitext filename).2 in
  (r = Ok tt /\ 1 <= m
   /\ w' = world_with_self
             (mkCodeGenerator (codes_count g) (codes_length g) (charset g)
                (codes_set g) enc (prefix g) (suffix g) (splitext filename).1
                ext m dir) w)
  \/ (exists e, r = Raise (ValueError e)).
Proof.
  unfold build_file. destruct (splitext filename) as [b e]. simpl.
  rewrite run_bind. simpl. rewrite run_bind.
  destruct mz as [z|]; simpl; rewrite run_bind; simpl.
  - destruct (Z.ltb_spec z 1); intros [= <- <-]; [right; by eexists|left].
    split_and!; done.
  - destruct (Z.ltb_spec (codes_count (self w)) 1); intros [= <- <-];
      [right; by eexists|left].
    split_and!; done.
Qed.

Lemma true_divide_nonzero (a b : Z) (w w' : World) :
  b ≠ 0 -> true_divide a b w ≠ (Raise ZeroDivisionError, w').
Proof.
  intros Hb. unfold true_divide, float_div_pos.
  destruct (Z.eqb_spec b 0); [done|].
  repeat case_match; simplify_eq; intros [=].
Qed.

(** With a charset built, the generator raises nothing but the capacity
    error and the overflow of the quotient. *)
Lemma generate_codes_raise (fuel : nat) (w w' : World) (e : exn) :
  charset (self w) ≠ "" -> 0 <= codes_length (self w) ->
  generate_codes fuel w = (Raise e, w') ->
  e = OverflowError \/ exists c l n, e = ValueError (CannotGenerate c l n).
Proof.
  intros Hne HL.
  assert (0 < len (charset (self w))) as Hlen.
  { unfold len. destruct (charset (self w)); [done|]. simpl. lia. }
  assert (len (charset (self w)) ^ codes_length (self w) ≠ 0) as Hpow.
  { assert (0 < len (charset (self w)) ^ codes_length (self w))
      by (by apply Z.pow_pos_nonneg). lia. }
  unfold generate_codes, check_probability. rewrite run_bind, run_bind. simpl.
  destruct (true_divide _ _ w) as [rp wp] eqn:Hp.
  pose proof Hp as [-> [[f ->] | [-> | ->]]]%true_divide_outcome.
  - destruct (float_gt_one f).
    + rewrite run_bind. simpl. intros [= <- <-]. right. by eexists _, _, _.
    + intros (new & _ & _ & _ & _ & _ & _ & _ & _ & [? | [? | [_ Hnil]]])
        %generate_loop_any; done.
  - by apply true_divide_nonzero in Hp.
  - intros [= <- <-]. by left.
Qed.

Lemma save_codes_unfold (w : World) :
  let g := self w in
  let codes := elements (codes_set g) in
  let k := (Z.of_nat (length codes) - 1) / maxlines g + 1 in
  let f1 := if path_exists (save_directory g) (fs w) then fs w
            else mkFileSystem ({[save_directory g]} ∪ dirs (fs w))
                   (files (fs w)) (locked (fs w)) in
  maxlines g ≠ 0 ->
  save_codes w
  = for_each (seqZ 0 k) (save_file g codes k) (world_with_fs f1 w).
Proof.
  intros g codes k f1 Hm. unfold save_codes.
  rewrite run_bind. simpl. rewrite run_bind. simpl. rewrite run_bind.
  fold g.
  assert ((if path_exists (save_directory g) (fs w) then mret ()
           else makedirs (save_directory g)) w
          = (Ok tt, world_with_fs f1 w)) as ->.
  { unfold f1. destruct (path_exists _ _); [|done].
    unfold mret, M_ret. f_equal. by destruct w. }
  rewrite run_bind. unfold floor_div.
  by destruct (Z.eqb_spec (maxlines g) 0).
Qed.

(** A writer that returned normally wrote every file. *)
Lemma save_codes_ok_inv (w w' : World) :
  let g := self w in
  let codes := elements (codes_set g) in
  let k := (Z.of_nat (length codes) - 1) / maxlines g + 1 in
  1 <= maxlines g ->
  save_codes w = (Ok tt, w') ->
  self w' = g
  /\ (forall i, 0 <= i < k ->
        files (fs w') !! file_path g k i = Some (split <$> file_codes g codes i))
  /\ (forall p, p ∉ file_path g k <$> seqZ 0 k ->
        files (fs w') !! p = files (fs w) !! p).
Proof.
  intros g codes k Hm Hrun.
  assert (forall i, 0 <= i < k -> file_path g k i ∉ locked (fs w)) as Hfree.
  { rewrite save_codes_unfold in Hrun by (fold g; lia). fold g codes k in Hrun.
    assert (0 <= k) as Hk.
    { unfold k.
      pose proof (Z.div_mod (Z.of_nat (length codes) - 1) (maxlines g)).
      pose proof (Z.mod_pos_bound (Z.of_nat (length codes) - 1) (maxlines g)).
      nia. }
    rewrite <- (Z2Nat.id k Hk) in Hrun at 1.
    apply run_save_files_seq in Hrun
      as (j & Hj & _ & Hfree & [[_ ->] | (? & _)]); [|done].
    intros i Hi. specialize (Hfree i ltac:(lia)). simpl in Hfree.
    by destruct (path_exists _ _). }
  rewrite run_save_codes in Hrun by (fold g; (lia || done)).
  injection Hrun as <-. fold g codes k. simpl.
  set (f1 := if path_exists _ _ then _ else _).
  assert (files f1 = files (fs w)) as Hf1
    by (unfold f1; by destruct (path_exists _ _)).
  split_and!; [done| |].
  - intros i Hi.
    apply (written_file (file_path g k)
             (fun i => split <$> file_codes g codes i));
      [apply file_paths_NoDup|apply elem_of_seqZ; lia].
  - intros p Hp.
    rewrite (written_other (file_path g k)
               (fun i => split <$> file_codes g codes i)); [by rewrite Hf1|].
    intros i Hi ->. apply Hp. by apply list_elem_of_fmap_2.
Qed.

(** The [try] block of [main] runs out of iterations, raises the overflow
    of the quotient or a [ValueError], or returns; when it returns, the
    object holds what the command line asked for and every file is
    written. *)
Lemma main_try_outcome (a : Args) (custom_charset : option string)
    (filename : string) (fuel : nat) (w w' : World) (r : result unit) :
  main_try a custom_charset filename fuel w = (r, w') ->
  r = Timeout \/ r = Raise OverflowError
  \/ (exists m, r = Raise (ValueError m))
  \/ (r = Ok tt
      /\ exists c l,
           parse_int (arg_count a) = Some c
           /\ parse_int (arg_length a) = Some l
           /\ 1 <= c /\ 1 <= l
           /\ let g := self w' in
              let codes := elements (codes_set g) in
              let k := (c - 1) / maxlines g + 1 in
              codes_count g = c /\ codes_length g = l
              /\ prefix g = arg_prefix a /\ suffix g = arg_suffix a
              /\ Z.of_nat (length codes) = c
              /\ Forall (code_of_object g) codes
              /\ maxlines g = default c (arg_maxlines a) /\ 1 <= maxlines g
              /\ filename_base g = (splitext filename).1
              /\ filename_ext g
                 = (if String.eqb (splitext filename).2 "" then ".csv"
                    else (splitext filename).2)
              /\ save_directory g = "codes"
              /\ (forall i, 0 <= i < k ->
                    files (fs w') !! file_path g k i
                    = Some (split <$> file_codes g codes i))
              /\ (forall p, p ∉ file_path g k <$> seqZ 0 k ->
                    files (fs w') !! p = files (fs w) !! p)).
Proof.
  unfold main_try. rewrite run_bind.
  destruct (init _ _ _ _ w) as [r1 w1] eqn:E1.
  apply init_strings_outcome in E1
    as [(c & l & Hc & Hl & Hc1 & Hl1 & -> & ->) | (m & -> & _)];
    [|intros [= <- <-]; right; right; left; by eexists].
  rewrite run_bind.
  destruct (build_character_set _ _ _ _ _ _) as [r2 w2] eqn:E2.
  pose proof (build_character_set_outcome _ _ _ _ _ _ _ _ E2)
    as [-> | (m & -> & _)];
    [|intros [= <- <-]; right; right; left; by eexists].
  apply build_character_set_ok_inv in E2
    as (alphaSet & B & _ & _ & _ & _ & _ & -> & Hne).
  set (A := filter _ _ ++ _) in *.
  rewrite run_bind.
  destruct (build_file _ _ _ _ _) as [r3 w3] eqn:E3.
  apply build_file_int_outcome in E3 as [(-> & Hm & ->) | (m & ->)];
    [|intros [= <- <-]; right; right; left; by eexists].
  simpl in Hm. simpl.
  set (g3 := mkCodeGenerator c l (of_chars A) ∅ (arg_encoding a)
               (arg_prefix a) (arg_suffix a) (splitext filename).1
               (if String.eqb (splitext filename).2 "" then ".csv"
                else (splitext filename).2)
               (default c (arg_maxlines a)) "codes").
  set (w3 := world_with_self g3 _).
  assert (charset g3 ≠ "") as Hcs.
  { simpl. intros Hnil%(f_equal chars). by rewrite chars_of_chars in Hnil. }
  unfold run. rewrite run_bind.
  destruct (generate_codes fuel w3) as [[[]|e4|] w4] eqn:E4;
    [| |intros [= <- <-]; by left].
  2:{ intros [= <- <-].
      apply generate_codes_raise in E4 as [-> | (? & ? & ? & ->)];
        [by right; left|right; right; left; by eexists|done|simpl; lia]. }
  pose proof E4 as [[_ [? | [? | ?]]] | Hloop]%generate_codes_any;
    try done.
  apply generate_loop_spec in Hloop
    as (new & Hself & Hnd & _ & Hn & Hwf); [|simpl; lia].
  simpl in Hself, Hn, Hwf. specialize (Hwf ltac:(lia)).
  apply keeps_fs_generate_codes in E4 as Hfs4. simpl in Hfs4.
  rewrite (right_id_L ∅ (∪)) in Hself.
  destruct (save_codes w4) as [[[]|e5|] w5] eqn:E5.
  - intros [= <- <-]. right; right; right. split; [done|].
    apply save_codes_ok_inv in E5 as (Hself5 & Hfiles & Hother);
      [|rewrite Hself; simpl; lia].
    assert (Z.of_nat (length (elements (codes_set (self w4)))) = c) as Hlen.
    { rewrite Hself. simpl.
      change (length (elements (list_to_set new : gset string)))
        with (size (list_to_set new : gset string)).
      rewrite size_list_to_set by done. lia. }
    rewrite Hlen in Hfiles, Hother.
    exists c, l. simpl. rewrite Hself5.
    assert (maxlines (self w4) = default c (arg_maxlines a)) as Hmax
      by (by rewrite Hself).
    split_and!; try done; try (by rewrite Hself).
    + rewrite Hself. simpl. apply Forall_forall. intros code Hcode.
      apply elem_of_elements, elem_of_list_to_set in Hcode.
      rewrite Forall_forall in Hwf. by apply Hwf.
    + intros p Hp. rewrite <- Hfs4. by apply Hother.
  - intros [= <- <-].
    pose proof (save_codes_raise _ _ _ E5) as [-> | ->].
    + exfalso. revert E5. rewrite save_codes_unfold by (rewrite Hself; simpl; lia).
      intros E5. set (k := _ / _ + 1) in E5.
      assert (0 <= k) as Hk.
      { unfold k. rewrite Hself. simpl.
        set (n := Z.of_nat _).
        pose proof (Z.div_mod (n - 1) (default c (arg_maxlines a))).
        pose proof (Z.mod_pos_bound (n - 1) (default c (arg_maxlines a))).
        nia. }
      rewrite <- (Z2Nat.id k Hk) in E5 at 1.
      by apply run_save_files_seq in E5 as (j & _ & _ & _ & [[? _] | [? _]]).
    + right; right; left. by eexists.
  - intros [= <- <-]. by left.
Qed.

(** ** [main] *)

Lemma main_outcome (a : Args) (typed now : string) (fuel : nat)
    (w w' : World) (r : result report) :
  main a typed now fuel w = (r, w') ->
  (r = Ok CustomCannotBeEmpty /\ w' = w)
  \/ (exists m, r = Ok (ErrorPrinted m))
  \/ r = Timeout \/ r = Raise OverflowError
  \/ (r = Ok CodesSaved
      /\ exists custom_charset,
           main_try a custom_charset (main_filename a now) fuel w = (Ok tt, w')).
Proof.
  unfold main. fold (main_filename a now).
  destruct (_ && _); [intros [= <- <-]; by left|].
  unfold try_except. rewrite run_bind.
  destruct (main_try _ _ _ _ w) as [rt wt] eqn:Et.
  pose proof (main_try_outcome _ _ _ _ _ _ _ Et)
    as [-> | [-> | [[m ->] | [-> _]]]]; simpl; intros [= <- <-].
  - right; right; by left.
  - right; right; right; by left.
  - right; left. by eexists.
  - right; right; right; right. split; [done|]. by eexists.
Qed.

(** X17: no [ValueError] leaves [main]: each is caught and printed.  And
    [main] never stops on a division by zero, an index error or a type
    error: the object it runs has a charset and [maxlines >= 1]. *)
Theorem main_catches_value_errors (a : Args) (typed now : string)
    (fuel : nat) (w w' : World) (e : exn) :
  main a typed now fuel w = (Raise e, w') ->
  (forall m, e ≠ ValueError m) /\ e ≠ ZeroDivisionError /\ e ≠ IndexError
  /\ e ≠ TypeError.
Proof.
  intros [[? _] | [[m ?] | [? | [[= ->] | [? _]]]]]%main_outcome; done.
Qed.

(** [10^400] codes of one digit: the quotient is beyond the floats. *)
Lemma main_catches_value_errors_witness :
  (forall m, OverflowError ≠ ValueError m) /\ OverflowError ≠ ZeroDivisionError
  /\ OverflowError ≠ IndexError /\ OverflowError ≠ TypeError.
Proof.
  apply (main_catches_value_errors huge_count_args "" "" 0
           (world_of (fun _ => O))
           (main huge_count_args "" "" 0 (world_of (fun _ => O))).2).
  vm_compute. reflexivity.
Defined.

(** X18: when [main] reports that the codes are saved, the count and the
    length on the command line are numerals of integers [c >= 1] and
    [l >= 1]; the object holds [c] codes, each the prefix, [l] characters of
    the charset and the suffix; with [m] the [maxlines] given, or [c] when
    none is, the [ceil(c / m)] files under "codes" hold the rows of these
    codes, file by file, and no other file was touched. *)
Theorem main_saves_all_codes (a : Args) (typed now : string) (fuel : nat)
    (w w' : World) :
  main a typed now fuel w = (Ok CodesSaved, w') ->
  exists c l,
    parse_int (arg_count a) = Some c /\ parse_int (arg_length a) = Some l
    /\ 1 <= c /\ 1 <= l
    /\ let g := self w' in
       let codes := elements (codes_set g) in
       let m := default c (arg_maxlines a) in
       let k := (c - 1) / m + 1 in
       Z.of_nat (length codes) = c
       /\ Forall (code_of_object g) codes
       /\ codes_length g = l
       /\ prefix g = arg_prefix a /\ suffix g = arg_suffix a
       /\ maxlines g = m /\ 1 <= m
       /\ save_directory g = "codes"
       /\ (forall i, 0 <= i < k ->
             files (fs w') !! file_path g k i
             = Some (split <$> file_codes g codes i))
       /\ (forall p, p ∉ file_path g k <$> seqZ 0 k ->
             files (fs w') !! p = files (fs w) !! p).
Proof.
  intros [[? _] | [[m ?] | [? | [? | [_ [custom Htry]]]]]]%main_outcome;
    try done.
  apply main_try_outcome in Htry
    as [? | [? | [[m ?] | [_ (c & l & Hc & Hl & Hc1 & Hl1 & Hg)]]]];
    try done.
  simpl in Hg.
  destruct Hg as (_ & HL & Hp & Hs & Hn & Hwf & Hm & Hm1 & _ & _ & Hdir
                  & Hfiles & Hother).
  exists c, l. simpl. rewrite Hm in *. split_and!; done.
Qed.

(** Ten codes of four digits, five per file. *)
Lemma main_saves_all_codes_witness :
  exists c l,
    parse_int (arg_count ten_codes_args) = Some c
    /\ parse_int (arg_length ten_codes_args) = Some l
    /\ 1 <= c /\ 1 <= l.
Proof.
  destruct (main_saves_all_codes ten_codes_args "" "" 10
              (world_of (counting_draws 10 4 0))
              (main ten_codes_args "" "" 10
                 (world_of (counting_draws 10 4 0))).2)
    as (c & l & Hc & Hl & Hc1 & Hl1 & _).
  - vm_compute. reflexivity.
  - exists c, l. split_and!; done.
Defined.

(** X19: without [--maxlines] all the codes go to one file, named by the
    base and the extension alone: when [main] reports that the codes are
    saved, that file under "codes" holds one row for each code of the
    set. *)
Theorem main_default_single_file (a : Args) (typed now : string)
    (fuel : nat) (w w' : World) :
  arg_maxlines a = None ->
  main a typed now fuel w = (Ok CodesSaved, w') ->
  let g := self w' in
  files (fs w') !! path_join "codes" (filename_base g +:+ filename_ext g)
  = Some (split <$> elements (codes_set g))
  /\ Z.of_nat (length (elements (codes_set g))) = codes_count g.
Proof.
  intros Hnone
    [[? _] | [[m ?] | [? | [? | [_ [custom Htry]]]]]]%main_outcome;
    try done.
  apply main_try_outcome in Htry
    as [? | [? | [[m ?] | [_ (c & l & Hc & Hl & Hc1 & Hl1 & Hg)]]]];
    try done.
  simpl in Hg.
  destruct Hg as (Hcount & _ & _ & _ & Hn & _ & Hm & Hm1 & _ & _ & Hdir
                  & Hfiles & _).
  rewrite Hnone in Hm. simpl in Hm. rewrite Hm in Hfiles.
  assert ((c - 1) / c + 1 = 1) as Hk.
  { rewrite Z.div_small by lia. done. }
  rewrite Hk in Hfiles. specialize (Hfiles 0 ltac:(lia)).
  unfold file_path, output_file_name in Hfiles. simpl in Hfiles.
  rewrite Hdir in Hfiles. simpl. split; [|lia].
  rewrite Hfiles. do 2 f_equal.
  rewrite file_codes_chunk by lia. rewrite Z.mul_0_l. simpl drop.
  apply take_ge. lia.
Qed.

(** One code, no [--maxlines]. *)
Lemma main_default_single_file_witness :
  let g := self (main spaced_prefix_args "" "" 1
                   (world_of (fun _ => 7%nat))).2 in
  files (fs (main spaced_prefix_args "" "" 1 (world_of (fun _ => 7%nat))).2)
    !! path_join "codes" (filename_base g +:+ filename_ext g)
  = Some (split <$> elements (codes_set g))
  /\ Z.of_nat (length (elements (codes_set g))) = codes_count g.
Proof.
  apply (main_default_single_file spaced_prefix_args "" "" 1
           (world_of (fun _ => 7%nat))).
  - reflexivity.
  - vm_compute. reflexivity.
Defined.

(** ** The default file name *)

Lemma rfind_from_absent (c : ascii) (l : list ascii) (i last : Z) :
  c ∉ l -> rfind_from c l i last = last.
Proof.
  revert i last. induction l as [|x l IH]; intros i last Hc; [done|].
  apply not_elem_of_cons in Hc as [Hx Hl]. simpl.
  destruct (Ascii.eqb_spec x c); [congruence|]. by apply IH.
Qed.

Lemma rfind_from_last (c : ascii) (l1 l2 : list ascii) (i last : Z) :
  c ∉ l2 ->
  rfind_from c (l1 ++ c :: l2) i last = i + Z.of_nat (length l1).
Proof.
  intros Hc. revert i last. induction l1 as [|x l1 IH]; intros i last.
  - simpl. rewrite Ascii.eqb_refl, rfind_from_absent by done. lia.
  - simpl. rewrite IH. lia.
Qed.

(** A name made of a stem without slash that starts with a letter other
    than the dot, followed by ".csv", is split before ".csv". *)
Lemma splitext_csv (c : ascii) (stem : list ascii) :
  c ≠ "."%char -> "/"%char ∉ c :: stem ->
  splitext (of_chars (c :: stem) +:+ ".csv") = (of_chars (c :: stem), ".csv").
Proof.
  intros Hc Hslash. unfold splitext.
  rewrite chars_app, chars_of_chars.
  change (chars ".csv") with ("."%char :: chars "csv").
  assert (rfind "/" ((c :: stem) ++ "."%char :: chars "csv") = -1) as ->.
  { apply rfind_from_absent. rewrite elem_of_app. intros [H|H]; [done|].
    revert H. apply (bool_decide_eq_false_1 (_ ∈ _)). reflexivity. }
  assert (rfind "." ((c :: stem) ++ "."%char :: chars "csv")
          = Z.of_nat (length (c :: stem))) as ->.
  { unfold rfind. rewrite rfind_from_last; [lia|].
    apply (bool_decide_eq_false_1 (_ ∈ _)). reflexivity. }
  assert (length ((c :: stem) ++ "."%char :: chars "csv")
          = (length (c :: stem) + 4)%nat) as Hlen
    by (rewrite length_app; reflexivity).
  rewrite slice_prefix, slice_suffix by lia.
  replace (-1 + 1) with 0 by lia.
  rewrite slice_prefix by lia. rewrite Nat2Z.id.
  rewrite take_app_length, drop_app_length.
  destruct (Z.ltb_spec (-1) (Z.of_nat (length (c :: stem)))); [|lia].
  simpl existsb. destruct (Ascii.eqb_spec c "."); [done|]. done.
Qed.

(** X20: without [--filename] the name is "codes_", the time stamp, and
    ".csv": when the time stamp holds no dot and no slash (it is made of
    digits) and [main] reports that the codes are saved, the object's base
    name is "codes_" with the time stamp and its extension ".csv". *)
Theorem main_default_filename (a : Args) (typed now : string) (fuel : nat)
    (w w' : World) :
  arg_filename a = None ->
  "."%char ∉ chars now -> "/"%char ∉ chars now ->
  main a typed now fuel w = (Ok CodesSaved, w') ->
  filename_base (self w') = "codes_" +:+ now
  /\ filename_ext (self w') = ".csv".
Proof.
  intros Hnone Hdot Hslash
    [[? _] | [[m ?] | [? | [? | [_ [custom Htry]]]]]]%main_outcome;
    try done.
  apply main_try_outcome in Htry
    as [? | [? | [[m ?] | [_ (c & l & Hc & Hl & Hc1 & Hl1 & Hg)]]]];
    try done.
  simpl in Hg.
  destruct Hg as (_ & _ & _ & _ & _ & _ & _ & _ & Hbase & Hext & _).
  unfold main_filename in Hbase, Hext. rewrite Hnone in Hbase, Hext.
  assert ("codes_" +:+ now +:+ ".csv"
          = of_chars ("c"%char :: chars ("odes_" +:+ now)) +:+ ".csv") as Hname.
  { apply chars_inj. rewrite !chars_app, chars_of_chars. done. }
  rewrite Hname, splitext_csv in Hbase, Hext.
  - simpl in Hbase, Hext. split; [|done]. rewrite Hbase.
    apply chars_inj. simpl. by rewrite chars_of_chars, !chars_app.
  - done.
  - rewrite chars_app. intros [H|[H|H]%elem_of_app]%elem_of_cons; [done| |done].
    revert H. apply (bool_decide_eq_false_1 (_ ∈ _)). reflexivity.
  - done.
  - rewrite chars_app. intros [H|[H|H]%elem_of_app]%elem_of_cons; [done| |done].
    revert H. apply (bool_decide_eq_false_1 (_ ∈ _)). reflexivity.
Qed.

Lemma main_default_filename_witness :
  let g := self (main default_name_args "" "20240131120000" 1
                   (world_of (fun _ => 7%nat))).2 in
  filename_base g = "codes_20240131120000" /\ filename_ext g = ".csv".
Proof.
  apply (main_default_filename default_name_args "" "20240131120000" 1
           (world_of (fun _ => 7%nat))).
  - reflexivity.
  - apply (bool_decide_eq_false_1 (_ ∈ _)). reflexivity.
  - apply (bool_decide_eq_false_1 (_ ∈ _)). reflexivity.
  - vm_compute. reflexivity.
Defined.
